(** * The activity store of the virtue tracker

    A shallow embedding of the [DatabaseService] class that the screens
    import from [../services/DatabaseService]: the store that talks to
    expo-sqlite through [openDatabaseAsync], [execAsync], [runAsync],
    [getAllAsync] and [getFirstAsync], together with the properties the
    specification states about it.  The source holds the class twice; the
    earlier text adds fallbacks for a legacy driver around the same
    statements, and the later text, without them, is the one followed
    here.

    Strings are [String.string] (sequences of 8-bit code units); TEXT
    values are compared the way SQLite's BINARY collation and JavaScript's
    default [Array.prototype.sort] compare them, unit by unit.  The engine
    executes each statement as SQL defines it; a refusal for reasons
    outside the table (I/O) is part of the model only where the store
    reacts to it, in [initialize]. *)

From Stdlib Require Import String Ascii List Bool NArith Arith Lia.
From Stdlib Require Import Sorted Permutation DecimalString.
Import ListNotations.
Local Open Scope string_scope.
Local Open Scope list_scope.

Set Implicit Arguments.

(** ** Ordering of TEXT values *)

Module Text.

Definition le (a b : string) : Prop := String.leb a b = true.
Definition lt (a b : string) : Prop := String.ltb a b = true.

Lemma compare_refl (s : string) : String.compare s s = Eq.
Proof.
  induction s as [|c s IH]; simpl; [reflexivity|].
  unfold Ascii.compare. now rewrite N.compare_refl.
Qed.

Lemma compare_lt_trans (a b c : string) :
  String.compare a b = Lt -> String.compare b c = Lt ->
  String.compare a c = Lt.
Proof.
  revert b c.
  induction a as [|x a IH]; intros [|y b] [|z c]; simpl;
    try discriminate; try reflexivity.
  unfold Ascii.compare.
  destruct (N.compare_spec (N_of_ascii x) (N_of_ascii y)) as [Hxy|Hxy|Hxy];
    try discriminate;
    destruct (N.compare_spec (N_of_ascii y) (N_of_ascii z)) as [Hyz|Hyz|Hyz];
    try discriminate; intros H1 H2.
  - rewrite Hxy, Hyz, N.compare_refl. eauto.
  - rewrite Hxy. apply N.compare_lt_iff in Hyz. now rewrite Hyz.
  - rewrite <- Hyz. apply N.compare_lt_iff in Hxy. now rewrite Hxy.
  - assert (Hxz : (N_of_ascii x < N_of_ascii z)%N) by lia.
    apply N.compare_lt_iff in Hxz. now rewrite Hxz.
Qed.

Lemma compare_gt_lt (a b : string) :
  String.compare a b = Gt <-> String.compare b a = Lt.
Proof.
  rewrite (String.compare_antisym a b).
  destruct (String.compare b a); simpl; split; congruence.
Qed.

Lemma leb_refl (s : string) : String.leb s s = true.
Proof. unfold String.leb. now rewrite compare_refl. Qed.

Lemma ltb_irrefl (s : string) : String.ltb s s = false.
Proof. unfold String.ltb. now rewrite compare_refl. Qed.

Lemma leb_trans (a b c : string) :
  String.leb a b = true -> String.leb b c = true -> String.leb a c = true.
Proof.
  unfold String.leb.
  destruct (String.compare a b) eqn:Hab; try discriminate;
    destruct (String.compare b c) eqn:Hbc; try discriminate; intros _ _.
  - apply String.compare_eq_iff in Hab, Hbc. subst. now rewrite compare_refl.
  - apply String.compare_eq_iff in Hab. subst. now rewrite Hbc.
  - apply String.compare_eq_iff in Hbc. subst. now rewrite Hab.
  - now rewrite (compare_lt_trans _ _ _ Hab Hbc).
Qed.

Lemma ltb_trans (a b c : string) :
  String.ltb a b = true -> String.ltb b c = true -> String.ltb a c = true.
Proof.
  unfold String.ltb.
  destruct (String.compare a b) eqn:Hab; try discriminate;
    destruct (String.compare b c) eqn:Hbc; try discriminate; intros _ _.
  now rewrite (compare_lt_trans _ _ _ Hab Hbc).
Qed.

Lemma ltb_leb (a b : string) : String.ltb a b = true -> String.leb a b = true.
Proof.
  unfold String.ltb, String.leb. now destruct (String.compare a b).
Qed.

Lemma leb_ltb_or_eq (a b : string) :
  String.leb a b = true <-> String.ltb a b = true \/ a = b.
Proof.
  unfold String.ltb, String.leb. split.
  - destruct (String.compare a b) eqn:H; try discriminate; intros _.
    + right. now apply String.compare_eq_iff.
    + now left.
  - intros [H| ->].
    + now destruct (String.compare a b).
    + now rewrite compare_refl.
Qed.

Lemma ltb_negb_leb (a b : string) : String.ltb a b = negb (String.leb b a).
Proof.
  unfold String.ltb, String.leb. rewrite (String.compare_antisym b a).
  now destruct (String.compare a b).
Qed.

Lemma eqb_compare (a b : string) :
  String.eqb a b = true <-> String.compare a b = Eq.
Proof.
  rewrite String.eqb_eq. split.
  - intros ->. apply compare_refl.
  - apply String.compare_eq_iff.
Qed.

End Text.

(** ** The JSON codec for tag lists

    [JSON.stringify] and [JSON.parse] are built-ins; the store only ever
    applies them to a [string[]].  [JSON_stringify] follows
    QuoteJSONString and SerializeJSONArray (no indentation), [JSON_parse]
    is a one-pass recogniser of JSON texts that denote an array of
    strings.  A text that is not such an array makes it answer [None],
    which stands for the [SyntaxError] the built-in throws. *)

Module JSON.

Definition dquote : ascii := "034"%char.
Definition backslash : ascii := "092"%char.
Definition code (c : ascii) : N := N_of_ascii c.

Definition hex_digit (n : N) : ascii :=
  if (n <? 10)%N then ascii_of_N (48 + n) else ascii_of_N (87 + n).

(** QuoteJSONString, one code unit at a time. *)
Definition escape_char (c : ascii) : string :=
  let n := code c in
  if (n =? 34)%N then String backslash (String dquote "")
  else if (n =? 92)%N then String backslash (String backslash "")
  else if (n =? 8)%N then String backslash "b"
  else if (n =? 12)%N then String backslash "f"
  else if (n =? 10)%N then String backslash "n"
  else if (n =? 13)%N then String backslash "r"
  else if (n =? 9)%N then String backslash "t"
  else if (n <? 32)%N then
    String backslash
      (String "u" (String "0" (String "0"
         (String (hex_digit (n / 16)) (String (hex_digit (n mod 16)) "")))))
  else String c "".

Fixpoint escape (s : string) : string :=
  match s with
  | EmptyString => ""
  | String c s' => escape_char c ++ escape s'
  end.

Definition quote (s : string) : string :=
  String dquote (escape s ++ String dquote "").

Fixpoint join_rest (l : list string) : string :=
  match l with
  | [] => ""
  | x :: l' => String "," (quote x ++ join_rest l')
  end.

(** [JSON.stringify(tags)] for [tags : string[]]. *)
Definition JSON_stringify (l : list string) : string :=
  match l with
  | [] => "[]"
  | x :: l' => String "[" (quote x ++ join_rest l' ++ "]")
  end.

(** The recogniser's states. *)
Inductive pstate : Type :=
| PStart                                         (* before the bracket *)
| POpen                                          (* after the bracket *)
| PValue (done : list string)                    (* after a comma *)
| PStr (done : list string) (cur : string)       (* inside a string *)
| PEsc (done : list string) (cur : string)       (* after a backslash *)
| PUni (done : list string) (cur : string) (k : nat) (v : N)
| PAfter (done : list string)                    (* after a string *)
| PEnd (done : list string)                      (* after the closing one *)
| PFail.

Definition is_ws (c : ascii) : bool :=
  let n := code c in
  ((n =? 32) || (n =? 9) || (n =? 10) || (n =? 13))%N.

Definition hex_value (c : ascii) : option N :=
  let n := code c in
  if ((48 <=? n) && (n <=? 57))%N then Some (n - 48)%N
  else if ((97 <=? n) && (n <=? 102))%N then Some (n - 87)%N
  else if ((65 <=? n) && (n <=? 70))%N then Some (n - 55)%N
  else None.

Definition snoc (s : string) (c : ascii) : string := s ++ String c "".

Definition step (st : pstate) (c : ascii) : pstate :=
  let n := code c in
  match st with
  | PStart =>
      if is_ws c then PStart
      else if (n =? 91)%N then POpen else PFail
  | POpen =>
      if is_ws c then POpen
      else if (n =? 93)%N then PEnd []
      else if (n =? 34)%N then PStr [] "" else PFail
  | PValue done =>
      if is_ws c then PValue done
      else if (n =? 34)%N then PStr done "" else PFail
  | PStr done cur =>
      if (n =? 34)%N then PAfter (done ++ [cur])
      else if (n =? 92)%N then PEsc done cur
      else if (n <? 32)%N then PFail
      else PStr done (snoc cur c)
  | PEsc done cur =>
      if (n =? 34)%N then PStr done (snoc cur dquote)
      else if (n =? 92)%N then PStr done (snoc cur backslash)
      else if (n =? 47)%N then PStr done (snoc cur "/"%char)
      else if (n =? 98)%N then PStr done (snoc cur (ascii_of_N 8))
      else if (n =? 102)%N then PStr done (snoc cur (ascii_of_N 12))
      else if (n =? 110)%N then PStr done (snoc cur (ascii_of_N 10))
      else if (n =? 114)%N then PStr done (snoc cur (ascii_of_N 13))
      else if (n =? 116)%N then PStr done (snoc cur (ascii_of_N 9))
      else if (n =? 117)%N then PUni done cur 0 0%N
      else PFail
  | PUni done cur k v =>
      match hex_value c with
      | None => PFail
      | Some d =>
          let v' := (16 * v + d)%N in
          if Nat.eqb k 3 then
            (* an escape above 00ff names a code unit that an 8-bit
               string cannot hold *)
            if (v' <? 256)%N then PStr done (snoc cur (ascii_of_N v'))
            else PFail
          else PUni done cur (S k) v'
      end
  | PAfter done =>
      if is_ws c then PAfter done
      else if (n =? 44)%N then PValue done
      else if (n =? 93)%N then PEnd done else PFail
  | PEnd done => if is_ws c then PEnd done else PFail
  | PFail => PFail
  end.

Fixpoint run (st : pstate) (s : string) : pstate :=
  match s with
  | EmptyString => st
  | String c s' => run (step st c) s'
  end.

(** [JSON.parse(text)] at type [string[]]. *)
Definition JSON_parse (s : string) : option (list string) :=
  match run PStart s with
  | PEnd done => Some done
  | _ => None
  end.

Lemma run_app (a b : string) : forall st, run st (a ++ b) = run (run st a) b.
Proof. induction a as [|c a IH]; intros st; simpl; auto. Qed.

Lemma append_assoc (a b c : string) :
  ((a ++ b) ++ c = a ++ (b ++ c))%string.
Proof. induction a as [|x a IH]; simpl; congruence. Qed.

Lemma append_nil_r (a : string) : (a ++ "" = a)%string.
Proof. induction a as [|x a IH]; simpl; congruence. Qed.

Lemma run_escape_char (c : ascii) (done : list string) (cur : string) :
  run (PStr done cur) (escape_char c) = PStr done (snoc cur c).
Proof.
  destruct c as [[] [] [] [] [] [] [] []]; vm_compute; reflexivity.
Qed.

Lemma run_escape (s : string) : forall done cur,
  run (PStr done cur) (escape s) = PStr done (cur ++ s).
Proof.
  induction s as [|c s IH]; intros done cur; simpl.
  - now rewrite append_nil_r.
  - rewrite run_app, run_escape_char, IH. unfold snoc.
    now rewrite append_assoc.
Qed.

Lemma run_string_body (s rest : string) (done : list string) :
  run (PStr done "") (escape s ++ String dquote rest)
  = run (PAfter (done ++ [s])) rest.
Proof. now rewrite run_app, run_escape. Qed.

Lemma run_join_rest (l : list string) : forall done,
  run (PAfter done) (join_rest l ++ "]") = PEnd (done ++ l).
Proof.
  induction l as [|x l IH]; intros done; simpl.
  - now rewrite app_nil_r.
  - unfold quote. simpl. rewrite !append_assoc. simpl.
    rewrite run_string_body, IH, <- app_assoc. reflexivity.
Qed.

(** What [JSON.stringify] writes, [JSON.parse] reads back. *)
Lemma parse_stringify (l : list string) :
  JSON_parse (JSON_stringify l) = Some l.
Proof.
  unfold JSON_parse. destruct l as [|x l]; [reflexivity|].
  simpl. unfold quote. simpl. rewrite !append_assoc. simpl.
  rewrite run_string_body, run_join_rest. reflexivity.
Qed.

Example stringify_two :
  JSON_stringify ["exercise"; "morning"]
  = String "[" (quote "exercise" ++ "," ++ quote "morning" ++ "]").
Proof. reflexivity. Qed.

Example parse_with_blanks :
  JSON_parse (String "[" (" " ++ quote "a" ++ " , " ++ quote "b" ++ " ] "))
  = Some ["a"; "b"].
Proof. reflexivity. Qed.

Example parse_truncated :
  JSON_parse (String "[" (String dquote "a")) = None.
Proof. reflexivity. Qed.

End JSON.

(** ** Sorting by a comparison

    [ORDER BY] and [Array.prototype.sort] are both modelled by one stable
    insertion sort over a boolean "comes no later than" test. *)

Section Sorting.

Variable A : Type.
Variable precedes : A -> A -> bool.

Fixpoint insert_sorted (x : A) (l : list A) : list A :=
  match l with
  | [] => [x]
  | y :: l' => if precedes x y then x :: l else y :: insert_sorted x l'
  end.

Definition sort_by (l : list A) : list A := fold_right insert_sorted [] l.

Lemma insert_sorted_perm (x : A) (l : list A) :
  Permutation (x :: l) (insert_sorted x l).
Proof.
  induction l as [|y l IH]; simpl; [reflexivity|].
  destruct (precedes x y); [reflexivity|].
  rewrite perm_swap. now apply perm_skip.
Qed.

Lemma sort_by_perm (l : list A) : Permutation l (sort_by l).
Proof.
  induction l as [|x l IH]; simpl; [constructor|].
  rewrite <- insert_sorted_perm. now apply perm_skip.
Qed.

Lemma sort_by_In (x : A) (l : list A) : In x (sort_by l) <-> In x l.
Proof.
  split; apply Permutation_in;
    [apply Permutation_sym|]; apply sort_by_perm.
Qed.

Hypothesis precedes_total : forall x y, precedes x y = true \/ precedes y x = true.
Hypothesis precedes_trans :
  forall x y z, precedes x y = true -> precedes y z = true -> precedes x z = true.

Let ordered (x y : A) : Prop := precedes x y = true.

Lemma insert_sorted_sorted (x : A) (l : list A) :
  StronglySorted ordered l -> StronglySorted ordered (insert_sorted x l).
Proof.
  induction 1 as [|y l Hs IH Hy]; simpl.
  - repeat constructor.
  - destruct (precedes x y) eqn:Hxy.
    + constructor; [now constructor|].
      constructor; [exact Hxy|].
      eapply Forall_impl; [|exact Hy]. intros z Hz. now apply precedes_trans with y.
    + constructor; [exact IH|].
      eapply Permutation_Forall; [apply insert_sorted_perm|].
      constructor; [|exact Hy].
      destruct (precedes_total x y) as [H|H]; [congruence|exact H].
Qed.

Lemma sort_by_sorted (l : list A) : StronglySorted ordered (sort_by l).
Proof.
  induction l as [|x l IH]; simpl; [constructor|].
  now apply insert_sorted_sorted.
Qed.

(** Selecting before or after the sort gives the same sequence. *)
Lemma filter_insert_sorted (p : A -> bool) (x : A) (l : list A) :
  StronglySorted ordered l ->
  filter p (insert_sorted x l)
  = if p x then insert_sorted x (filter p l) else filter p l.
Proof.
  induction 1 as [|y l Hs IH Hy]; simpl.
  - now destruct (p x).
  - destruct (precedes x y) eqn:Hxy; simpl.
    + destruct (p x) eqn:Hpx; [|reflexivity].
      destruct (p y) eqn:Hpy; simpl; [now rewrite Hxy|].
      f_equal.
      assert (Hall : Forall (ordered x) (filter p l)).
      { apply Forall_forall. intros z Hz. apply filter_In in Hz.
        destruct Hz as [Hz _]. rewrite Forall_forall in Hy.
        apply precedes_trans with y; [exact Hxy|now apply Hy]. }
      destruct (filter p l) as [|z l']; [reflexivity|].
      simpl. inversion Hall as [|? ? Hz _]; subst.
      unfold ordered in Hz. now rewrite Hz.
    + rewrite IH.
      destruct (p y) eqn:Hpy; destruct (p x) eqn:Hpx; simpl;
        try rewrite Hxy; reflexivity.
Qed.

Lemma filter_sort_by (p : A -> bool) (l : list A) :
  filter p (sort_by l) = sort_by (filter p l).
Proof.
  induction l as [|x l IH]; simpl; [reflexivity|].
  rewrite filter_insert_sorted by apply sort_by_sorted.
  rewrite IH. now destruct (p x).
Qed.

End Sorting.

(** ** Data model ([src/types/Activity.ts]) *)

Record Activity : Type := {
  id : string;
  handle : string;
  committed_on : string;
  tags : list string;
  created_at : string;
  updated_at : string
}.

Record NewActivity : Type := {
  new_handle : string;
  new_committed_on : string;
  new_tags : list string
}.

(** [Partial<NewActivity>]: each property is supplied or left out. *)
Record PartialNewActivity : Type := {
  upd_handle : option string;
  upd_committed_on : option string;
  upd_tags : option (list string)
}.

(** A row of the [activities] table; [row_tags] is the TEXT column that
    holds the encoded tag list. *)
Record Row : Type := {
  row_id : string;
  row_handle : string;
  row_committed_on : string;
  row_tags : string;
  row_created_at : string;
  row_updated_at : string
}.

(** ** The embedded engine

    The database file [virtue_tracker.db]: the [activities] table, absent
    until it is created, with its rows in insertion order, and the two
    indexes. *)

Record DbFile : Type := {
  activities : option (list Row);
  idx_activities_committed_on : bool;
  idx_activities_handle : bool
}.

Inductive SQLiteDatabase : Type := Handle (databaseName : string).

Record DatabaseService : Type := {
  db : option SQLiteDatabase;
  isInitialized : bool
}.

Record World : Type := {
  service : DatabaseService;
  file : DbFile
}.

Inductive error : Type :=
| NotInitialized            (* 'Database not initialized. Please wait ...' *)
| OpenedNull                (* 'Failed to open database - db is null' *)
| DatabaseNotOpen           (* 'Database not open' *)
| NullDereference           (* a call through a null [db!] *)
| SyntaxError               (* thrown by JSON.parse *)
| SQLiteError (msg : string) (* the engine rejects a call *).

(** What the surroundings answer during one [initialize()]: the result of
    [openDatabaseAsync] and, per [execAsync] call, whether the engine
    refuses it. *)
Inductive open_result : Type :=
| Opened (h : option SQLiteDatabase)
| OpenRejected (msg : string).

Record InitEnv : Type := {
  open_answer : open_result;
  exec_fault : nat -> option string
}.

(** The readings one operation takes: [Date.now()], the nine characters
    kept of [Math.random().toString(36)], and [new Date().toISOString()]. *)
Record Readings : Type := {
  Date_now : N;
  random_suffix : string;
  iso_now : string
}.

(** ** Computations that mutate the world and may throw *)

Inductive outcome (A : Type) : Type :=
| Returned (a : A) (w : World)
| Thrown (e : error) (w : World).
Arguments Returned {A} a w.
Arguments Thrown {A} e w.

Definition M (A : Type) : Type := World -> outcome A.

Definition ret {A} (a : A) : M A := fun w => Returned a w.
Definition throw {A} (e : error) : M A := fun w => Thrown e w.
Definition bind {A B} (c : M A) (k : A -> M B) : M B :=
  fun w => match c w with
           | Returned a w' => k a w'
           | Thrown e w' => Thrown e w'
           end.
Definition try_catch {A} (c : M A) (h : error -> M A) : M A :=
  fun w => match c w with
           | Returned a w' => Returned a w'
           | Thrown e w' => h e w'
           end.

Declare Scope store_scope.
Delimit Scope store_scope with store.
Notation "x <- c ;; k" := (bind c (fun x => k))
  (at level 61, c at next level, right associativity) : store_scope.
Notation "c ;; k" := (bind c (fun _ => k))
  (at level 61, right associativity) : store_scope.
Local Open Scope store_scope.

Definition get_db : M (option SQLiteDatabase) :=
  fun w => Returned (db (service w)) w.
Definition get_isInitialized : M bool :=
  fun w => Returned (isInitialized (service w)) w.
Definition set_db (h : option SQLiteDatabase) : M unit :=
  fun w => Returned tt
    {| service := {| db := h; isInitialized := isInitialized (service w) |};
       file := file w |}.
Definition set_isInitialized (b : bool) : M unit :=
  fun w => Returned tt
    {| service := {| db := db (service w); isInitialized := b |};
       file := file w |}.
Definition get_file : M DbFile := fun w => Returned (file w) w.
Definition set_file (f : DbFile) : M unit :=
  fun w => Returned tt {| service := service w; file := f |}.

(** [this.db!]: the handle, or the TypeError of a call through null. *)
Definition db_nonnull : M SQLiteDatabase :=
  d <- get_db ;;
  match d with
  | Some h => ret h
  | None => throw NullDereference
  end.

(** *** Statements *)

Definition no_such_table : error := SQLiteError "no such table: activities".
Definition unique_failed : error :=
  SQLiteError "UNIQUE constraint failed: activities.id".

Definition the_rows : M (list Row) :=
  f <- get_file ;;
  match activities f with
  | Some rows => ret rows
  | None => throw no_such_table
  end.

Definition put_rows (rows : list Row) : M unit :=
  f <- get_file ;;
  set_file {| activities := Some rows;
              idx_activities_committed_on := idx_activities_committed_on f;
              idx_activities_handle := idx_activities_handle f |}.

Inductive ddl : Type :=
| CREATE_TABLE_activities             (* IF NOT EXISTS *)
| CREATE_INDEX_committed_on           (* IF NOT EXISTS *)
| CREATE_INDEX_handle                 (* IF NOT EXISTS *).

Definition run_ddl (s : ddl) : M unit :=
  f <- get_file ;;
  match s with
  | CREATE_TABLE_activities =>
      match activities f with
      | Some _ => ret tt
      | None => put_rows []
      end
  | CREATE_INDEX_committed_on =>
      match activities f with
      | Some rows =>
          set_file {| activities := Some rows;
                      idx_activities_committed_on := true;
                      idx_activities_handle := idx_activities_handle f |}
      | None => throw no_such_table
      end
  | CREATE_INDEX_handle =>
      match activities f with
      | Some rows =>
          set_file {| activities := Some rows;
                      idx_activities_committed_on := idx_activities_committed_on f;
                      idx_activities_handle := true |}
      | None => throw no_such_table
      end
  end.

(** [db.execAsync(source)], the [n]-th such call of one initialisation. *)
Definition execAsync (env : InitEnv) (n : nat) (_ : SQLiteDatabase) (s : ddl)
  : M unit :=
  match exec_fault env n with
  | Some msg => throw (SQLiteError msg)
  | None => run_ddl s
  end.

(** [SQLite.openDatabaseAsync('virtue_tracker.db')]. *)
Definition openDatabaseAsync (env : InitEnv) (_ : string)
  : M (option SQLiteDatabase) :=
  match open_answer env with
  | Opened h => ret h
  | OpenRejected msg => throw (SQLiteError msg)
  end.

Definition has_id (i : string) (r : Row) : bool := String.eqb (row_id r) i.

(** INSERT INTO activities (...) VALUES (?, ?, ?, ?, ?, ?): [id] is the
    PRIMARY KEY. *)
Definition INSERT_activity (_ : SQLiteDatabase) (r : Row) : M unit :=
  rows <- the_rows ;;
  if existsb (has_id (row_id r)) rows then throw unique_failed
  else put_rows (rows ++ [r]).

(** ORDER BY committed_on DESC, created_at DESC. *)
Definition row_precedes (r1 r2 : Row) : bool :=
  match String.compare (row_committed_on r1) (row_committed_on r2) with
  | Gt => true
  | Lt => false
  | Eq => String.leb (row_created_at r2) (row_created_at r1)
  end.

Definition ORDER_BY_committed_on_created_at_DESC : list Row -> list Row :=
  sort_by row_precedes.

(** SELECT * FROM activities ORDER BY committed_on DESC, created_at DESC. *)
Definition SELECT_all (_ : SQLiteDatabase) : M (list Row) :=
  rows <- the_rows ;;
  ret (ORDER_BY_committed_on_created_at_DESC rows).

(** WHERE committed_on >= ? AND committed_on <= ?. *)
Definition in_range (startDate endDate : string) (c : string) : bool :=
  String.leb startDate c && String.leb c endDate.

Definition SELECT_range (_ : SQLiteDatabase) (startDate endDate : string)
  : M (list Row) :=
  rows <- the_rows ;;
  ret (ORDER_BY_committed_on_created_at_DESC
         (filter (fun r => in_range startDate endDate (row_committed_on r)) rows)).

(** [getFirstAsync('SELECT * FROM activities WHERE id = ?')]: the first
    matching row, or null. *)
Definition SELECT_by_id (_ : SQLiteDatabase) (i : string) : M (option Row) :=
  rows <- the_rows ;;
  ret (find (has_id i) rows).

(** UPDATE activities SET handle = ?, committed_on = ?, tags = ?,
    updated_at = ? WHERE id = ?. *)
Definition set_columns (h c t u : string) (i : string) (r : Row) : Row :=
  if has_id i r then
    {| row_id := row_id r; row_handle := h; row_committed_on := c;
       row_tags := t; row_created_at := row_created_at r;
       row_updated_at := u |}
  else r.

Definition UPDATE_activity (_ : SQLiteDatabase) (h c t u : string) (i : string)
  : M unit :=
  rows <- the_rows ;;
  put_rows (map (set_columns h c t u i) rows).

(** DELETE FROM activities WHERE id = ?; answers [result.changes]. *)
Definition DELETE_activity (_ : SQLiteDatabase) (i : string) : M nat :=
  rows <- the_rows ;;
  put_rows (filter (fun r => negb (has_id i r)) rows) ;;
  ret (length (filter (has_id i) rows)).

(** SELECT DISTINCT tags FROM activities. *)
Fixpoint distinct (l : list string) : list string :=
  match l with
  | [] => []
  | x :: l' => x :: filter (fun y => negb (String.eqb y x)) (distinct l')
  end.

Definition SELECT_DISTINCT_tags (_ : SQLiteDatabase) : M (list string) :=
  rows <- the_rows ;;
  ret (distinct (map row_tags rows)).

(** ** The store ([class DatabaseService]) *)

Definition databaseFile : string := "virtue_tracker.db".

Definition createTables (env : InitEnv) : M unit :=
  d <- get_db ;;
  match d with
  | None => throw DatabaseNotOpen
  | Some h =>
      try_catch
        (execAsync env 0 h CREATE_TABLE_activities ;;
         execAsync env 1 h CREATE_INDEX_committed_on ;;
         execAsync env 2 h CREATE_INDEX_handle)
        (fun e => throw e)
  end.

Definition initialize (env : InitEnv) : M unit :=
  ready <- get_isInitialized ;;
  d <- get_db ;;
  match ready, d with
  | true, Some _ => ret tt                      (* already initialized *)
  | _, _ =>
      try_catch
        (set_isInitialized false ;;
         set_db None ;;
         h <- openDatabaseAsync env databaseFile ;;
         set_db h ;;
         d' <- get_db ;;
         match d' with
         | None => throw OpenedNull
         | Some _ =>
             createTables env ;;
             set_isInitialized true
         end)
        (fun e =>
           set_db None ;;
           set_isInitialized false ;;
           throw e)
  end.

Definition ensureInitialized : M unit :=
  ready <- get_isInitialized ;;
  d <- get_db ;;
  match ready, d with
  | true, Some _ => ret tt
  | _, _ => throw NotInitialized
  end.

Definition JSON_parse (text : string) : M (list string) :=
  match JSON.JSON_parse text with
  | Some l => ret l
  | None => throw SyntaxError
  end.

(** [Date.now().toString() + Math.random().toString(36).substr(2, 9)]. *)
Definition fresh_id (r : Readings) : string :=
  (NilZero.string_of_uint (N.to_uint (Date_now r)) ++ random_suffix r)%string.

Definition addActivity (r : Readings) (activity : NewActivity) : M Activity :=
  ensureInitialized ;;
  let id := fresh_id r in
  let now := iso_now r in
  let tagsJson := JSON.JSON_stringify (new_tags activity) in
  h <- db_nonnull ;;
  INSERT_activity h
    {| row_id := id; row_handle := new_handle activity;
       row_committed_on := new_committed_on activity; row_tags := tagsJson;
       row_created_at := now; row_updated_at := now |} ;;
  ret {| id := id;
         handle := new_handle activity;
         committed_on := new_committed_on activity;
         tags := new_tags activity;
         created_at := now;
         updated_at := now |}.

(** The object literal built from a result row. *)
Definition activity_of_row (row : Row) : M Activity :=
  t <- JSON_parse (row_tags row) ;;
  ret {| id := row_id row;
         handle := row_handle row;
         committed_on := row_committed_on row;
         tags := t;
         created_at := row_created_at row;
         updated_at := row_updated_at row |}.

(** [result.map(f)] for an [f] that may throw. *)
Fixpoint mapM {A B} (f : A -> M B) (l : list A) : M (list B) :=
  match l with
  | [] => ret []
  | x :: l' => y <- f x ;; ys <- mapM f l' ;; ret (y :: ys)
  end.

Definition getActivities : M (list Activity) :=
  ensureInitialized ;;
  h <- db_nonnull ;;
  result <- SELECT_all h ;;
  mapM activity_of_row result.

Definition getActivitiesByDateRange (startDate endDate : string)
  : M (list Activity) :=
  ensureInitialized ;;
  h <- db_nonnull ;;
  result <- SELECT_range h startDate endDate ;;
  mapM activity_of_row result.

Definition getActivityById (i : string) : M (option Activity) :=
  ensureInitialized ;;
  h <- db_nonnull ;;
  result <- SELECT_by_id h i ;;
  match result with
  | None => ret None
  | Some row => a <- activity_of_row row ;; ret (Some a)
  end.

(** [{ ...existing, ...updates, updated_at: now }]. *)
Definition spread (existing : Activity) (updates : PartialNewActivity)
  (now : string) : Activity :=
  {| id := id existing;
     handle := match upd_handle updates with
               | Some h => h | None => handle existing end;
     committed_on := match upd_committed_on updates with
                     | Some c => c | None => committed_on existing end;
     tags := match upd_tags updates with
             | Some t => t | None => tags existing end;
     created_at := created_at existing;
     updated_at := now |}.

Definition with_tags (a : Activity) (t : list string) : Activity :=
  {| id := id a; handle := handle a; committed_on := committed_on a;
     tags := t; created_at := created_at a; updated_at := updated_at a |}.

Definition updateActivity (r : Readings) (i : string)
  (updates : PartialNewActivity) : M (option Activity) :=
  ensureInitialized ;;
  existing <- getActivityById i ;;
  match existing with
  | None => ret None
  | Some existing =>
      let updated := spread existing updates (iso_now r) in
      let updated :=
        match upd_tags updates with
        | Some t => with_tags updated t
        | None => updated
        end in
      let tagsJson := JSON.JSON_stringify (tags updated) in
      h <- db_nonnull ;;
      UPDATE_activity h (handle updated) (committed_on updated) tagsJson
        (updated_at updated) i ;;
      ret (Some updated)
  end.

Definition deleteActivity (i : string) : M bool :=
  ensureInitialized ;;
  h <- db_nonnull ;;
  changes <- DELETE_activity h i ;;
  ret (Nat.ltb 0 changes).

(** [new Set<string>()] keeps its members in insertion order. *)
Definition Set_add (s : list string) (x : string) : list string :=
  if existsb (String.eqb x) s then s else s ++ [x].

Fixpoint forEach_row (result : list string) (allTags : list string)
  : M (list string) :=
  match result with
  | [] => ret allTags
  | text :: rest =>
      t <- JSON_parse text ;;
      forEach_row rest (fold_left Set_add t allTags)
  end.

(** [Array.prototype.sort()] with the default comparison. *)
Definition Array_sort : list string -> list string := sort_by String.leb.

Definition getAllTags : M (list string) :=
  ensureInitialized ;;
  h <- db_nonnull ;;
  result <- SELECT_DISTINCT_tags h ;;
  allTags <- forEach_row result [] ;;
  ret (Array_sort allTags).

(** ** States *)

Definition READY (w : World) : Prop :=
  isInitialized (service w) = true /\ db (service w) <> None.

Definition UNINITIALIZED (w : World) : Prop :=
  isInitialized (service w) = false /\ db (service w) = None.

(** The table exists and every row holds an encoded tag list. *)
Definition stored (w : World) (rows : list Row) : Prop :=
  activities (file w) = Some rows /\
  Forall (fun r => JSON.JSON_parse (row_tags r) <> None) rows.

Definition decode (r : Row) : Activity :=
  {| id := row_id r;
     handle := row_handle r;
     committed_on := row_committed_on r;
     tags := match JSON.JSON_parse (row_tags r) with
             | Some t => t | None => [] end;
     created_at := row_created_at r;
     updated_at := row_updated_at r |}.

(** A process that has not called [initialize()] yet, on a fresh device. *)
Definition initial_world : World :=
  {| service := {| db := None; isInitialized := false |};
     file := {| activities := None;
                idx_activities_committed_on := false;
                idx_activities_handle := false |} |}.

Definition quiet : InitEnv :=
  {| open_answer := Opened (Some (Handle databaseFile));
     exec_fault := fun _ => None |}.

Definition ready_world (rows : list Row) : World :=
  {| service := {| db := Some (Handle databaseFile); isInitialized := true |};
     file := {| activities := Some rows;
                idx_activities_committed_on := true;
                idx_activities_handle := true |} |}.

Example initialize_fresh :
  initialize quiet initial_world = Returned tt (ready_world []).
Proof. reflexivity. Qed.

(** ** Running the store *)

Ltac unfold_store :=
  unfold createTables, execAsync, openDatabaseAsync, run_ddl,
    INSERT_activity, SELECT_all, SELECT_range, SELECT_by_id, UPDATE_activity,
    DELETE_activity, SELECT_DISTINCT_tags, the_rows, put_rows,
    ensureInitialized, db_nonnull, try_catch, bind, ret, throw,
    get_db, get_isInitialized, set_db, set_isInitialized, get_file, set_file
    in *.

(** A READY world whose table exists, taken apart. *)
Lemma ready_shape (w : World) (rows : list Row) :
  READY w -> activities (file w) = Some rows ->
  exists h i1 i2,
    w = {| service := {| db := Some h; isInitialized := true |};
           file := {| activities := Some rows;
                      idx_activities_committed_on := i1;
                      idx_activities_handle := i2 |} |}.
Proof.
  destruct w as [[d init] [acts i1 i2]]. unfold READY. simpl.
  intros [Hinit Hdb] Hacts. subst. destruct d as [h|]; [|congruence].
  now exists h, i1, i2.
Qed.

Ltac canonical_world w rows :=
  match goal with
  | Hr : READY w, Hs : stored w rows |- _ =>
      let h := fresh "h" in
      let i1 := fresh "i1" in
      let i2 := fresh "i2" in
      let E := fresh "E" in
      let Hparse := fresh "Hparse" in
      destruct Hs as [Hs Hparse];
      destruct (ready_shape Hr Hs) as (h & i1 & i2 & E);
      subst w; clear Hr Hs; simpl in Hparse
  end.

Lemma ensureInitialized_not_ready (w : World) :
  ~ READY w -> ensureInitialized w = Thrown NotInitialized w.
Proof.
  destruct w as [[d init] f]. unfold READY. simpl. intros H.
  unfold_store. simpl.
  destruct init; [|reflexivity]. destruct d; [|reflexivity].
  exfalso. apply H. split; [reflexivity|discriminate].
Qed.

Lemma mapM_activity_of_row (rows : list Row) (w : World) :
  Forall (fun r => JSON.JSON_parse (row_tags r) <> None) rows ->
  mapM activity_of_row rows w = Returned (map decode rows) w.
Proof.
  induction 1 as [|r rows Hr _ IH]; simpl; [reflexivity|].
  unfold bind at 1. unfold activity_of_row at 1, decode at 1, JSON_parse.
  unfold bind at 1.
  destruct (JSON.JSON_parse (row_tags r)) as [t|]; [|congruence].
  unfold ret at 1 2. unfold bind. rewrite IH. reflexivity.
Qed.

Lemma activity_of_row_decode (r : Row) (w : World) :
  JSON.JSON_parse (row_tags r) <> None ->
  activity_of_row r w = Returned (decode r) w.
Proof.
  intros H. unfold activity_of_row, decode, JSON_parse, bind, ret.
  destruct (JSON.JSON_parse (row_tags r)); [reflexivity|congruence].
Qed.

Lemma find_has_id (i : string) (rows : list Row) (r : Row) :
  find (has_id i) rows = Some r -> In r rows /\ row_id r = i.
Proof.
  intros H. apply find_some in H. destruct H as [Hin Hid].
  split; [exact Hin|]. now apply String.eqb_eq.
Qed.

Lemma find_none_existsb (i : string) (rows : list Row) :
  find (has_id i) rows = None <-> existsb (has_id i) rows = false.
Proof.
  induction rows as [|r rows IH]; simpl; [tauto|].
  destruct (has_id i r); simpl; [split; discriminate|exact IH].
Qed.

(** ** The ordering of listings *)

Lemma row_precedes_total (x y : Row) :
  row_precedes x y = true \/ row_precedes y x = true.
Proof.
  unfold row_precedes.
  rewrite (String.compare_antisym (row_committed_on y) (row_committed_on x)).
  destruct (String.compare (row_committed_on x) (row_committed_on y));
    simpl; auto.
  destruct (String.leb_total (row_created_at x) (row_created_at y)); auto.
Qed.

Lemma row_precedes_trans (x y z : Row) :
  row_precedes x y = true -> row_precedes y z = true ->
  row_precedes x z = true.
Proof.
  unfold row_precedes.
  destruct (String.compare (row_committed_on x) (row_committed_on y)) eqn:Hxy;
    try discriminate;
    destruct (String.compare (row_committed_on y) (row_committed_on z)) eqn:Hyz;
    try discriminate; intros H1 H2.
  - apply String.compare_eq_iff in Hxy, Hyz. rewrite Hxy, Hyz.
    rewrite Text.compare_refl. now apply Text.leb_trans with (row_created_at y).
  - apply String.compare_eq_iff in Hxy. now rewrite Hxy, Hyz.
  - apply String.compare_eq_iff in Hyz. now rewrite <- Hyz, Hxy.
  - apply Text.compare_gt_lt in Hxy, Hyz.
    pose proof (Text.compare_lt_trans _ _ _ Hyz Hxy) as H.
    apply Text.compare_gt_lt in H. now rewrite H.
Qed.

(** What [row_precedes] says in terms of the two columns. *)
Lemma row_precedes_spec (x y : Row) :
  row_precedes x y = true ->
  String.leb (row_committed_on y) (row_committed_on x) = true /\
  (row_committed_on x = row_committed_on y ->
   String.leb (row_created_at y) (row_created_at x) = true).
Proof.
  unfold row_precedes. intros H. split.
  - unfold String.leb.
    rewrite (String.compare_antisym (row_committed_on y) (row_committed_on x)).
    destruct (String.compare (row_committed_on x) (row_committed_on y));
      simpl; congruence.
  - intros E. rewrite E, Text.compare_refl in H. exact H.
Qed.

Lemma StronglySorted_split (A : Type) (R : A -> A -> Prop)
  (l1 l2 l3 : list A) (x y : A) :
  StronglySorted R (l1 ++ x :: l2 ++ y :: l3) -> R x y.
Proof.
  induction l1 as [|z l1 IH]; simpl; intros H.
  - apply StronglySorted_inv in H. destruct H as [_ H].
    rewrite Forall_forall in H. apply H.
    apply in_or_app. right. now left.
  - apply StronglySorted_inv in H. destruct H as [H _]. auto.
Qed.

Lemma StronglySorted_map (A B : Type) (f : A -> B)
  (R : A -> A -> Prop) (Q : B -> B -> Prop) (l : list A) :
  (forall x y, R x y -> Q (f x) (f y)) ->
  StronglySorted R l -> StronglySorted Q (map f l).
Proof.
  intros HRQ. induction 1 as [|x l Hs IH Hx]; simpl; constructor; auto.
  apply Forall_map. eapply Forall_impl; [|exact Hx]. auto.
Qed.

(** The first thing that goes wrong during an initialisation, if any. *)
Definition first_failure (env : InitEnv) : option error :=
  match open_answer env with
  | OpenRejected msg => Some (SQLiteError msg)
  | Opened None => Some OpenedNull
  | Opened (Some _) =>
      match exec_fault env 0, exec_fault env 1, exec_fault env 2 with
      | Some msg, _, _ => Some (SQLiteError msg)
      | None, Some msg, _ => Some (SQLiteError msg)
      | None, None, Some msg => Some (SQLiteError msg)
      | None, None, None => None
      end
  end.

(** Whether [updated_at] is later than [created_at] on the activity that
    an update returns right after the activity was added. *)
Definition later_after_update (r1 r2 : Readings) (activity : NewActivity)
  (updates : PartialNewActivity) (w : World) : option bool :=
  match addActivity r1 activity w with
  | Returned a w1 =>
      match updateActivity r2 (id a) updates w1 with
      | Returned (Some u) _ => Some (String.ltb (created_at u) (updated_at u))
      | _ => None
      end
  | Thrown _ _ => None
  end.

Definition noon : Readings :=
  {| Date_now := 1704110400000;
     random_suffix := "k3j9x0q2m";
     iso_now := "2024-01-01T12:00:00.000Z" |}.

Definition one_past_noon : Readings :=
  {| Date_now := 1704110400001;
     random_suffix := "p8w1z5c7r";
     iso_now := "2024-01-01T12:00:00.001Z" |}.

Definition activity_h : NewActivity :=
  {| new_handle := "h"; new_committed_on := "2024-01-01"; new_tags := ["a"] |}.

Definition only_tags (t : list string) : PartialNewActivity :=
  {| upd_handle := None; upd_committed_on := None; upd_tags := Some t |}.

(** ** The uninitialized guard *)

(** C4: every data operation invoked while the store is not READY fails
    with the NotInitialized error and leaves the world as it was; none of
    them returns a result. *)
Theorem not_ready_operations_fail (w : World) (r : Readings)
  (activity : NewActivity) (updates : PartialNewActivity)
  (i startDate endDate : string) :
  ~ READY w ->
  addActivity r activity w = Thrown NotInitialized w /\
  getActivities w = Thrown NotInitialized w /\
  getActivitiesByDateRange startDate endDate w = Thrown NotInitialized w /\
  getActivityById i w = Thrown NotInitialized w /\
  updateActivity r i updates w = Thrown NotInitialized w /\
  deleteActivity i w = Thrown NotInitialized w /\
  getAllTags w = Thrown NotInitialized w.
Proof.
  intros H. apply ensureInitialized_not_ready in H.
  unfold addActivity, getActivities, getActivitiesByDateRange,
    getActivityById, updateActivity, deleteActivity, getAllTags.
  repeat split; unfold bind at 1; rewrite H; reflexivity.
Qed.

Lemma not_ready_operations_fail_witness :
  getActivities initial_world = Thrown NotInitialized initial_world.
Proof.
  refine (proj1 (proj2
    (not_ready_operations_fail (w := initial_world) noon activity_h
       (only_tags []) "x" "2024-01-01" "2024-01-31" _))).
  unfold READY. simpl. intros [H _]. discriminate H.
Defined.

(** ** The initialisation state machine *)

Lemma initialize_ready (env : InitEnv) (w : World) :
  READY w -> initialize env w = Returned tt w.
Proof.
  destruct w as [[d init] f]. unfold READY. simpl. intros [-> Hd].
  destruct d; [reflexivity|congruence].
Qed.

Lemma initialize_not_ready (env : InitEnv) (w : World) :
  ~ READY w ->
  match first_failure env with
  | Some e => exists w', initialize env w = Thrown e w' /\ UNINITIALIZED w'
  | None => exists w', initialize env w = Returned tt w' /\ READY w'
              /\ activities (file w') <> None
  end.
Proof.
  destruct w as [[d init] [acts i1 i2]]. intros Hnot.
  assert (Hcase : init = false \/ d = None).
  { destruct init; [|now left]. destruct d; [|now right].
    exfalso. apply Hnot. split; [reflexivity|discriminate]. }
  unfold first_failure, initialize. unfold_store. simpl.
  assert (Hgo :
    match init, d with
    | true, Some _ => False
    | _, _ => True
    end).
  { destruct Hcase; subst; [exact I|]. now destruct init. }
  destruct (open_answer env) as [[h|]|msg].
  - destruct (exec_fault env 0) as [m0|];
      [|destruct acts as [rows|]; simpl;
        (destruct (exec_fault env 1) as [m1|];
         [|destruct (exec_fault env 2) as [m2|]])];
      destruct init; destruct d; simpl in *; try contradiction;
      eexists; (split; [reflexivity|]);
      unfold READY, UNINITIALIZED; simpl;
      repeat split; try reflexivity; discriminate.
  - destruct init; destruct d; simpl in *; try contradiction;
      eexists; (split; [reflexivity|]); unfold UNINITIALIZED; simpl; auto.
  - destruct init; destruct d; simpl in *; try contradiction;
      eexists; (split; [reflexivity|]); unfold UNINITIALIZED; simpl; auto.
Qed.

Lemma uninitialized_not_ready (w : World) : UNINITIALIZED w -> ~ READY w.
Proof. intros [H _] [H' _]. congruence. Qed.

Lemma initialize_thrown_first_failure (env : InitEnv) (w w' : World) (e : error) :
  initialize env w = Thrown e w' ->
  ~ READY w /\ first_failure env = Some e /\ UNINITIALIZED w'.
Proof.
  intros H.
  assert (Hnot : ~ READY w).
  { intros Hr. rewrite (initialize_ready env Hr) in H. discriminate. }
  split; [exact Hnot|].
  pose proof (initialize_not_ready env Hnot) as Hi.
  destruct (first_failure env) as [e'|].
  - destruct Hi as (w1 & Hi & Hu). rewrite Hi in H. now inversion H; subst.
  - destruct Hi as (w1 & Hi & _). rewrite Hi in H. discriminate.
Qed.

(** C9: [initialize()] on a READY store returns at once and changes
    nothing.  Otherwise, when opening the database, creating the table or
    creating an index fails, the call throws that failure and leaves the
    store UNINITIALIZED, from where a later [initialize()] that meets no
    failure makes it READY. *)
Theorem initialize_idempotent_and_resets (env : InitEnv) (w : World) :
  (READY w -> initialize env w = Returned tt w) /\
  (~ READY w -> forall e, first_failure env = Some e ->
     exists w', initialize env w = Thrown e w') /\
  (forall e w', initialize env w = Thrown e w' ->
     first_failure env = Some e /\ UNINITIALIZED w' /\
     forall env', first_failure env' = None ->
       exists w'', initialize env' w' = Returned tt w'' /\ READY w'').
Proof.
  split; [apply initialize_ready|]. split.
  - intros Hnot e He. pose proof (initialize_not_ready env Hnot) as Hi.
    rewrite He in Hi. destruct Hi as (w' & Hi & _). now exists w'.
  - intros e w' H. apply initialize_thrown_first_failure in H.
    destruct H as (_ & He & Hu). repeat split; try assumption; try apply Hu.
    intros env' Hquiet.
    pose proof (initialize_not_ready env' (uninitialized_not_ready Hu)) as Hi.
    rewrite Hquiet in Hi. destruct Hi as (w'' & Hi & Hr & _). now exists w''.
Qed.

Definition index_refused : InitEnv :=
  {| open_answer := Opened (Some (Handle databaseFile));
     exec_fault := fun n => if Nat.eqb n 1 then Some "disk I/O error" else None |}.

Lemma initialize_idempotent_and_resets_witness :
  initialize index_refused (ready_world []) = Returned tt (ready_world []) /\
  exists w', initialize index_refused initial_world
             = Thrown (SQLiteError "disk I/O error") w'.
Proof.
  split.
  - apply (proj1 (initialize_idempotent_and_resets index_refused (ready_world []))).
    unfold READY. simpl. split; [reflexivity|discriminate].
  - apply (proj1 (proj2 (initialize_idempotent_and_resets index_refused initial_world))).
    + unfold READY. simpl. intros [H _]. discriminate H.
    + reflexivity.
Defined.

(** ** Absent ids *)

Lemma getActivityById_run (w : World) (rows : list Row) (i : string) :
  READY w -> stored w rows ->
  getActivityById i w
  = Returned (option_map decode (find (has_id i) rows)) w.
Proof.
  intros Hr Hs. canonical_world w rows.
  unfold getActivityById. unfold_store. simpl.
  destruct (find (has_id i) rows) as [row|] eqn:Hfind; simpl; [|reflexivity].
  rewrite activity_of_row_decode; [reflexivity|].
  rewrite Forall_forall in Hparse. apply Hparse.
  now apply find_has_id in Hfind.
Qed.

Lemma updateActivity_absent (w : World) (rows : list Row) (r : Readings)
  (i : string) (updates : PartialNewActivity) :
  READY w -> stored w rows -> find (has_id i) rows = None ->
  updateActivity r i updates w = Returned None w.
Proof.
  intros Hr Hs Hnone.
  pose proof (getActivityById_run i Hr Hs) as Hget.
  rewrite Hnone in Hget. simpl in Hget.
  unfold updateActivity. unfold bind at 1.
  assert (He : ensureInitialized w = Returned tt w).
  { canonical_world w rows. reflexivity. }
  rewrite He. unfold bind at 1. rewrite Hget. reflexivity.
Qed.

(** C5: on a READY store, for an id that no stored activity has,
    [getById] and [update] both return the absent marker [null] instead of
    throwing, and [update] writes nothing: the world is unchanged. *)
Theorem absent_id_is_null (w : World) (rows : list Row) (r : Readings)
  (i : string) (updates : PartialNewActivity) :
  READY w -> stored w rows -> find (has_id i) rows = None ->
  getActivityById i w = Returned None w /\
  updateActivity r i updates w = Returned None w.
Proof.
  intros Hr Hs Hnone. split.
  - rewrite (getActivityById_run i Hr Hs), Hnone. reflexivity.
  - now apply updateActivity_absent with rows.
Qed.

Definition row_of (i h c : string) (t : list string) (at_ : string) : Row :=
  {| row_id := i; row_handle := h; row_committed_on := c;
     row_tags := JSON.JSON_stringify t;
     row_created_at := at_; row_updated_at := at_ |}.

Definition three_days : list Row :=
  [ row_of "1a" "walk" "2024-01-01" ["a"; "b"] "2024-01-05T08:00:00.000Z";
    row_of "2b" "read" "2024-01-03" ["b"; "c"] "2024-01-05T08:00:01.000Z";
    row_of "3c" "cook" "2024-01-02" [] "2024-01-05T08:00:02.000Z" ].

Lemma ready_world_READY (rows : list Row) : READY (ready_world rows).
Proof. split; [reflexivity|discriminate]. Defined.

Lemma three_days_stored : stored (ready_world three_days) three_days.
Proof.
  split; [reflexivity|].
  repeat constructor; vm_compute; discriminate.
Defined.

Lemma absent_id_is_null_witness :
  getActivityById "nonexistent-id" (ready_world three_days)
  = Returned None (ready_world three_days) /\
  updateActivity noon "nonexistent-id" (only_tags ["z"]) (ready_world three_days)
  = Returned None (ready_world three_days).
Proof.
  apply (absent_id_is_null noon "nonexistent-id" (only_tags ["z"])
           (ready_world_READY three_days) three_days_stored).
  reflexivity.
Defined.

(** ** Deleting *)

Lemma filter_none_id (A : Type) (p : A -> bool) (l : list A) :
  existsb p l = false -> filter (fun x => negb (p x)) l = l /\ filter p l = [].
Proof.
  induction l as [|x l IH]; simpl; [auto|].
  destruct (p x); simpl; [discriminate|].
  intros H. destruct (IH H) as [H1 H2]. now rewrite H1, H2.
Qed.

Lemma filter_length_split (A : Type) (p : A -> bool) (l : list A) :
  length (filter p l) + length (filter (fun x => negb (p x)) l) = length l.
Proof.
  induction l as [|x l IH]; simpl; [reflexivity|].
  destruct (p x); simpl; lia.
Qed.

(** C8: on a READY store [delete(id)] returns, and the boolean it returns
    is true exactly when a row was removed, that is when a stored row had
    that id; for an id no row has it returns false, throws nothing and
    leaves the world unchanged. *)
Theorem delete_true_iff_removed (w : World) (rows : list Row) (i : string) :
  READY w -> stored w rows ->
  exists b w',
    deleteActivity i w = Returned b w' /\
    service w' = service w /\
    stored w' (filter (fun r => negb (has_id i r)) rows) /\
    (b = true <->
     length (filter (fun r => negb (has_id i r)) rows) < length rows) /\
    (b = true <-> exists row, In row rows /\ row_id row = i) /\
    (find (has_id i) rows = None -> b = false /\ w' = w).
Proof.
  intros Hr Hs. canonical_world w rows.
  unfold deleteActivity. unfold_store. simpl.
  eexists. eexists. split; [reflexivity|]. simpl.
  split; [reflexivity|]. split.
  { split; [reflexivity|]. simpl.
    rewrite Forall_forall in *. intros x Hx. apply filter_In in Hx.
    now apply Hparse. }
  pose proof (filter_length_split (has_id i) rows) as Hlen.
  split; [|split].
  - rewrite Nat.ltb_lt. lia.
  - rewrite Nat.ltb_lt. split.
    + intros Hpos.
      destruct (filter (has_id i) rows) as [|row l] eqn:Hf; [simpl in Hpos; lia|].
      assert (Hin : In row (filter (has_id i) rows)) by (rewrite Hf; now left).
      apply filter_In in Hin. destruct Hin as [Hin Hid].
      exists row. split; [exact Hin|]. now apply String.eqb_eq.
    + intros (row & Hin & Hid).
      assert (Hin' : In row (filter (has_id i) rows)).
      { apply filter_In. split; [exact Hin|]. now apply String.eqb_eq. }
      destruct (filter (has_id i) rows); [contradiction|simpl; lia].
  - intros Hnone. apply find_none_existsb in Hnone.
    destruct (filter_none_id _ _ Hnone) as [H1 H2].
    rewrite H1, H2. simpl. auto.
Qed.

Lemma delete_true_iff_removed_witness :
  exists b w',
    deleteActivity "nonexistent-id" (ready_world three_days) = Returned b w' /\
    b = false /\ w' = ready_world three_days.
Proof.
  destruct (delete_true_iff_removed "nonexistent-id"
              (ready_world_READY three_days) three_days_stored)
    as (b & w' & Hrun & _ & _ & _ & _ & Habsent).
  exists b, w'. split; [exact Hrun|]. apply Habsent. reflexivity.
Defined.

(** ** Writing and reading back *)

(** The world after a statement replaced the table's rows. *)
Definition with_rows (w : World) (rows : list Row) : World :=
  {| service := service w;
     file := {| activities := Some rows;
                idx_activities_committed_on :=
                  idx_activities_committed_on (file w);
                idx_activities_handle := idx_activities_handle (file w) |} |}.

Definition inserted_row (r : Readings) (activity : NewActivity) : Row :=
  {| row_id := fresh_id r; row_handle := new_handle activity;
     row_committed_on := new_committed_on activity;
     row_tags := JSON.JSON_stringify (new_tags activity);
     row_created_at := iso_now r; row_updated_at := iso_now r |}.

Definition parseable (r : Row) : Prop := JSON.JSON_parse (row_tags r) <> None.

Lemma with_rows_READY (w : World) (rows : list Row) :
  READY w -> READY (with_rows w rows).
Proof. intros H. exact H. Qed.

Lemma with_rows_stored (w : World) (rows : list Row) :
  Forall parseable rows -> stored (with_rows w rows) rows.
Proof. intros H. split; [reflexivity|exact H]. Qed.

Lemma stringify_parseable (t : list string) :
  JSON.JSON_parse (JSON.JSON_stringify t) <> None.
Proof. rewrite JSON.parse_stringify. discriminate. Qed.

Lemma addActivity_run (w : World) (rows : list Row) (r : Readings)
  (activity : NewActivity) :
  READY w -> stored w rows ->
  addActivity r activity w
  = if existsb (has_id (fresh_id r)) rows then Thrown unique_failed w
    else Returned (decode (inserted_row r activity))
           (with_rows w (rows ++ [inserted_row r activity])).
Proof.
  intros Hr Hs. canonical_world w rows.
  unfold addActivity. unfold_store. simpl.
  destruct (existsb (has_id (fresh_id r)) rows); [reflexivity|].
  unfold decode, inserted_row, with_rows. simpl.
  now rewrite JSON.parse_stringify.
Qed.

Lemma find_app_last (i : string) (rows : list Row) (row : Row) :
  existsb (has_id i) rows = false -> row_id row = i ->
  find (has_id i) (rows ++ [row]) = Some row.
Proof.
  intros Hfresh Hid. induction rows as [|x rows IH]; simpl in *.
  - unfold has_id. rewrite Hid, String.eqb_refl. reflexivity.
  - destruct (has_id i x); simpl in *; [discriminate|auto].
Qed.

(** C1: on a READY store, [add] returns an activity whenever the id it
    draws is not taken, and whenever [add] returns, [getById] with the
    returned id reads back that very activity: its handle, committed_on
    and tags are the ones given and its created_at equals its
    updated_at.  No condition on the input is needed. *)
Theorem add_then_getById (w : World) (rows : list Row) (r : Readings)
  (activity : NewActivity) :
  READY w -> stored w rows ->
  (find (has_id (fresh_id r)) rows = None ->
   exists a w', addActivity r activity w = Returned a w') /\
  (forall a w', addActivity r activity w = Returned a w' ->
     getActivityById (id a) w' = Returned (Some a) w' /\
     handle a = new_handle activity /\
     committed_on a = new_committed_on activity /\
     tags a = new_tags activity /\
     created_at a = updated_at a).
Proof.
  intros Hr Hs. pose proof (addActivity_run r activity Hr Hs) as Hadd.
  split.
  - intros Hfresh. apply find_none_existsb in Hfresh.
    rewrite Hfresh in Hadd. eauto.
  - intros a w' Hrun. rewrite Hadd in Hrun.
    destruct (existsb (has_id (fresh_id r)) rows) eqn:Hfresh; [discriminate|].
    inversion Hrun; subst a w'; clear Hrun.
    assert (Hs' : stored (with_rows w (rows ++ [inserted_row r activity]))
                    (rows ++ [inserted_row r activity])).
    { apply with_rows_stored. apply Forall_app. split; [apply Hs|].
      constructor; [|constructor]. apply stringify_parseable. }
    rewrite (getActivityById_run _ (with_rows_READY _ Hr) Hs').
    simpl id. rewrite (@find_app_last _ rows (inserted_row r activity) Hfresh eq_refl). simpl option_map.
    repeat split; simpl.
    now rewrite JSON.parse_stringify.
Qed.

Lemma add_then_getById_witness :
  exists a w',
    addActivity noon activity_h (ready_world three_days) = Returned a w' /\
    getActivityById (id a) w' = Returned (Some a) w' /\
    tags a = ["a"].
Proof.
  destruct (add_then_getById noon activity_h
              (ready_world_READY three_days) three_days_stored)
    as [Hruns Hback].
  destruct (Hruns eq_refl) as (a & w' & Hrun).
  exists a, w'. split; [exact Hrun|].
  destruct (Hback a w' Hrun) as (Hget & _ & _ & Htags & _).
  split; [exact Hget|exact Htags].
Defined.

(** ** Updating *)

(** The row that the UPDATE statement leaves for a merged activity. *)
Definition rewritten (u : Activity) (i : string) : Row -> Row :=
  set_columns (handle u) (committed_on u) (JSON.JSON_stringify (tags u))
    (updated_at u) i.

Lemma updateActivity_run (w : World) (rows : list Row) (r : Readings)
  (i : string) (updates : PartialNewActivity) (row : Row) :
  READY w -> stored w rows -> find (has_id i) rows = Some row ->
  updateActivity r i updates w
  = Returned (Some (spread (decode row) updates (iso_now r)))
      (with_rows w
         (map (rewritten (spread (decode row) updates (iso_now r)) i) rows)).
Proof.
  intros Hr Hs Hfind.
  pose proof (getActivityById_run i Hr Hs) as Hget. rewrite Hfind in Hget.
  unfold updateActivity. unfold bind at 1.
  assert (He : ensureInitialized w = Returned tt w).
  { canonical_world w rows. reflexivity. }
  rewrite He. unfold bind at 1. rewrite Hget. unfold option_map.
  assert (Hsame :
    match upd_tags updates with
    | Some t => with_tags (spread (decode row) updates (iso_now r)) t
    | None => spread (decode row) updates (iso_now r)
    end = spread (decode row) updates (iso_now r)).
  { unfold spread, with_tags. simpl. now destruct (upd_tags updates). }
  rewrite Hsame. clear Hsame Hget He.
  canonical_world w rows. unfold_store. reflexivity.
Qed.

Lemma find_map_rewritten (u : Activity) (i : string) (rows : list Row) :
  find (has_id i) (map (rewritten u i) rows)
  = option_map (rewritten u i) (find (has_id i) rows).
Proof.
  induction rows as [|x rows IH]; simpl; [reflexivity|].
  unfold rewritten at 1, set_columns. destruct (has_id i x) eqn:Hx.
  - unfold has_id in *. simpl. rewrite Hx. simpl.
    unfold rewritten, set_columns, has_id. now rewrite Hx.
  - rewrite Hx. exact IH.
Qed.

Lemma rewritten_parseable (u : Activity) (i : string) (rows : list Row) :
  Forall parseable rows -> Forall parseable (map (rewritten u i) rows).
Proof.
  intros H. apply Forall_map. eapply Forall_impl; [|exact H].
  intros x Hx. unfold rewritten, set_columns, parseable.
  destruct (has_id i x); [apply stringify_parseable|exact Hx].
Qed.

Lemma decode_rewritten (row : Row) (updates : PartialNewActivity)
  (now i : string) :
  has_id i row = true ->
  decode (rewritten (spread (decode row) updates now) i row)
  = spread (decode row) updates now.
Proof.
  intros Hid. unfold rewritten, set_columns. rewrite Hid.
  unfold decode at 1. simpl. now rewrite JSON.parse_stringify.
Qed.

Lemma update_then_getById (w : World) (rows : list Row) (r : Readings)
  (i : string) (updates : PartialNewActivity) (row : Row) :
  READY w -> stored w rows -> find (has_id i) rows = Some row ->
  getActivityById i
    (with_rows w
       (map (rewritten (spread (decode row) updates (iso_now r)) i) rows))
  = Returned (Some (spread (decode row) updates (iso_now r)))
      (with_rows w
         (map (rewritten (spread (decode row) updates (iso_now r)) i) rows)).
Proof.
  intros Hr Hs Hfind.
  rewrite (getActivityById_run i (with_rows_READY _ Hr)
             (with_rows_stored w (rewritten_parseable _ i (proj2 Hs)))).
  rewrite find_map_rewritten, Hfind. simpl option_map.
  rewrite decode_rewritten; [reflexivity|].
  apply find_some in Hfind. apply Hfind.
Qed.

(** C10: on a READY store, [update] of a stored id returns an activity,
    and the activity it returns, which it builds in memory, is the one an
    immediately following [getById] reads back from the table, equal in
    all six fields. *)
Theorem update_returns_what_is_stored (w : World) (rows : list Row)
  (r : Readings) (i : string) (updates : PartialNewActivity) :
  READY w -> stored w rows ->
  (find (has_id i) rows <> None ->
   exists u w', updateActivity r i updates w = Returned (Some u) w') /\
  (forall u w', updateActivity r i updates w = Returned (Some u) w' ->
     getActivityById i w' = Returned (Some u) w').
Proof.
  intros Hr Hs. split.
  - destruct (find (has_id i) rows) as [row|] eqn:Hfind; [|congruence].
    intros _.
    rewrite (@updateActivity_run w rows r i updates row Hr Hs Hfind). eauto.
  - intros u w' Hrun.
    destruct (find (has_id i) rows) as [row|] eqn:Hfind.
    + rewrite (@updateActivity_run w rows r i updates row Hr Hs Hfind) in Hrun.
      inversion Hrun; subst u w'. now apply update_then_getById.
    + rewrite (@updateActivity_absent w rows r i updates Hr Hs Hfind) in Hrun.
      discriminate.
Qed.

Lemma update_returns_what_is_stored_witness :
  exists u w',
    updateActivity noon "2b" (only_tags ["z"]) (ready_world three_days)
    = Returned (Some u) w' /\
    getActivityById "2b" w' = Returned (Some u) w'.
Proof.
  destruct (update_returns_what_is_stored noon "2b" (only_tags ["z"])
              (ready_world_READY three_days) three_days_stored)
    as [Hruns Hback].
  destruct Hruns as (u & w' & Hrun); [vm_compute; discriminate|].
  exists u, w'. split; [exact Hrun|]. now apply Hback.
Defined.

(** C3, as the specification states it, fails: an update that reads the
    same instant as the creation returns [updated_at] equal to
    [created_at], not later. *)
Lemma update_same_instant_not_later :
  later_after_update noon noon activity_h (only_tags ["b"; "c"])
    (ready_world []) = Some false.
Proof. vm_compute. reflexivity. Qed.

Lemma add_on_empty_table (r : Readings) (activity : NewActivity) :
  addActivity r activity (ready_world [])
  = Returned (decode (inserted_row r activity))
      (ready_world [inserted_row r activity]).
Proof.
  rewrite (@addActivity_run (ready_world []) [] r activity
             (ready_world_READY []) (conj eq_refl (Forall_nil _))).
  reflexivity.
Qed.

Lemma single_row_stored (r : Readings) (activity : NewActivity) :
  stored (ready_world [inserted_row r activity]) [inserted_row r activity].
Proof.
  split; [reflexivity|]. constructor; [|constructor].
  apply stringify_parseable.
Qed.

Lemma find_single (row : Row) : find (has_id (row_id row)) [row] = Some row.
Proof. simpl. unfold has_id. now rewrite String.eqb_refl. Qed.

(** C3, amended: on a READY store a successful [update] of a stored
    activity returns and persists the activity in which every supplied
    field has the supplied value, every field not supplied (and the id and
    created_at) keeps its prior value, and updated_at is the time read by
    the update; updated_at is later than created_at exactly when that
    reading is later than created_at.  In particular, after
    add(h, 2024-01-01, [a]) on an empty store, update(id, tags [b, c])
    returns handle h, committed_on 2024-01-01 and tags [b, c], with
    created_at the reading of the add and updated_at that of the update. *)
Theorem update_changes_supplied_fields (w : World) (rows : list Row)
  (r : Readings) (i : string) (updates : PartialNewActivity) (row : Row) :
  READY w -> stored w rows -> find (has_id i) rows = Some row ->
  (exists u w',
     updateActivity r i updates w = Returned (Some u) w' /\
     getActivityById i w' = Returned (Some u) w' /\
     id u = row_id row /\
     created_at u = row_created_at row /\
     handle u = match upd_handle updates with
                | Some h => h | None => row_handle row end /\
     committed_on u = match upd_committed_on updates with
                      | Some c => c | None => row_committed_on row end /\
     tags u = match upd_tags updates with
              | Some t => t | None => tags (decode row) end /\
     updated_at u = iso_now r /\
     (String.ltb (created_at u) (updated_at u) = true <->
      String.ltb (row_created_at row) (iso_now r) = true)) /\
  (forall r1 r2 : Readings, exists a w1 u w2,
     addActivity r1 activity_h (ready_world []) = Returned a w1 /\
     updateActivity r2 (id a) (only_tags ["b"; "c"]) w1 = Returned (Some u) w2 /\
     handle u = "h" /\ committed_on u = "2024-01-01" /\ tags u = ["b"; "c"] /\
     created_at u = iso_now r1 /\ updated_at u = iso_now r2).
Proof.
  intros Hr Hs Hfind. split.
  - exists (spread (decode row) updates (iso_now r)).
    eexists.
    split; [apply (@updateActivity_run w rows r i updates row Hr Hs Hfind)|].
    split; [apply (@update_then_getById w rows r i updates row Hr Hs Hfind)|].
    simpl. repeat split; auto.
  - intros r1 r2.
    exists (decode (inserted_row r1 activity_h)).
    exists (ready_world [inserted_row r1 activity_h]).
    eexists. eexists.
    split; [apply add_on_empty_table|].
    split.
    + apply (@updateActivity_run _ _ r2 _ (only_tags ["b"; "c"])
               (inserted_row r1 activity_h)
               (ready_world_READY _) (single_row_stored r1 activity_h)).
      apply (find_single (inserted_row r1 activity_h)).
    + simpl. repeat split.
Qed.

Lemma update_changes_supplied_fields_witness :
  exists u w',
    updateActivity one_past_noon "1a" (only_tags ["b"; "c"])
      (ready_world three_days) = Returned (Some u) w' /\
    handle u = "walk" /\ committed_on u = "2024-01-01" /\
    tags u = ["b"; "c"] /\ updated_at u = "2024-01-01T12:00:00.001Z".
Proof.
  destruct (update_changes_supplied_fields one_past_noon "1a"
              (only_tags ["b"; "c"])
              (ready_world_READY three_days) three_days_stored eq_refl)
    as [(u & w' & Hrun & _ & _ & _ & Hh & Hc & Ht & Hu & _) _].
  exists u, w'. repeat split; assumption.
Defined.

(** ** Listings *)

Lemma sorted_rows_parseable (rows : list Row) :
  Forall parseable rows ->
  Forall parseable (ORDER_BY_committed_on_created_at_DESC rows).
Proof.
  intros H. eapply Permutation_Forall; [|exact H]. apply sort_by_perm.
Qed.

Lemma getActivities_run (w : World) (rows : list Row) :
  READY w -> stored w rows ->
  getActivities w
  = Returned (map decode (ORDER_BY_committed_on_created_at_DESC rows)) w.
Proof.
  intros Hr Hs. canonical_world w rows.
  unfold getActivities. unfold_store. simpl.
  now rewrite mapM_activity_of_row by now apply sorted_rows_parseable.
Qed.

Definition committed_within (startDate endDate : string) (a : Activity) : bool :=
  String.leb startDate (committed_on a) && String.leb (committed_on a) endDate.

Lemma getActivitiesByDateRange_run (w : World) (rows : list Row)
  (startDate endDate : string) :
  READY w -> stored w rows ->
  getActivitiesByDateRange startDate endDate w
  = Returned
      (filter (committed_within startDate endDate)
         (map decode (ORDER_BY_committed_on_created_at_DESC rows))) w.
Proof.
  intros Hr Hs. canonical_world w rows.
  unfold getActivitiesByDateRange. unfold_store. simpl.
  rewrite mapM_activity_of_row.
  - f_equal. unfold ORDER_BY_committed_on_created_at_DESC.
    rewrite <- (filter_sort_by row_precedes row_precedes_total row_precedes_trans).
    generalize (sort_by row_precedes rows). intros l.
    induction l as [|x l IH]; simpl; [reflexivity|].
    unfold committed_within at 1, in_range at 1. simpl.
    destruct (String.leb startDate (row_committed_on x)
              && String.leb (row_committed_on x) endDate); simpl; now rewrite IH.
  - apply sorted_rows_parseable.
    rewrite Forall_forall in *. intros x Hx. apply filter_In in Hx.
    now apply Hparse.
Qed.

(** The order of a listing: later committed_on first, and within one
    committed_on later created_at first. *)
Definition listed_before (x y : Activity) : Prop :=
  String.leb (committed_on y) (committed_on x) = true /\
  (committed_on x = committed_on y ->
   String.leb (created_at y) (created_at x) = true).

(** C2: on a READY store [list()] returns all stored activities, each
    once, and wherever [x] comes before [y] in the result, the
    committed_on of [x] is not earlier than that of [y], and when the two
    are identical the created_at of [x] is not earlier than that of [y]. *)
Theorem list_is_sorted_descending (w : World) (rows : list Row) :
  READY w -> stored w rows ->
  exists l,
    getActivities w = Returned l w /\
    Permutation (map decode rows) l /\
    forall l1 x l2 y l3, l = l1 ++ x :: l2 ++ y :: l3 -> listed_before x y.
Proof.
  intros Hr Hs. eexists. split; [apply (getActivities_run Hr Hs)|]. split.
  - apply Permutation_map. apply sort_by_perm.
  - intros l1 x l2 y l3 E.
    apply (@StronglySorted_split _ listed_before l1 l2 l3). rewrite <- E.
    apply StronglySorted_map with (R := fun a b => row_precedes a b = true).
    + intros a b Hab. apply row_precedes_spec in Hab. exact Hab.
    + apply sort_by_sorted;
        [apply row_precedes_total|apply row_precedes_trans].
Qed.

Lemma list_is_sorted_descending_witness :
  exists l,
    getActivities (ready_world three_days) = Returned l (ready_world three_days) /\
    map committed_on l = ["2024-01-03"; "2024-01-02"; "2024-01-01"].
Proof.
  destruct (list_is_sorted_descending (ready_world_READY three_days)
              three_days_stored) as (l & Hrun & _ & _).
  exists l. split; [exact Hrun|].
  assert (E : Returned l (ready_world three_days)
              = getActivities (ready_world three_days))
    by (symmetry; exact Hrun).
  vm_compute in E. inversion E. reflexivity.
Defined.

(** C6: on a READY store [listByDateRange(start, end)] returns the
    listing of [list()] restricted to the activities with
    start <= committed_on <= end, both bounds included, in the order
    they have in [list()]; when start is later than end the result is the
    empty sequence and nothing is thrown. *)
Theorem date_range_filters_list (w : World) (rows : list Row)
  (startDate endDate : string) :
  READY w -> stored w rows ->
  exists all,
    getActivities w = Returned all w /\
    getActivitiesByDateRange startDate endDate w
    = Returned (filter (committed_within startDate endDate) all) w /\
    (forall a, In a (filter (committed_within startDate endDate) all) <->
       In a all /\ String.leb startDate (committed_on a) = true
       /\ String.leb (committed_on a) endDate = true) /\
    (String.ltb endDate startDate = true ->
     getActivitiesByDateRange startDate endDate w = Returned [] w).
Proof.
  intros Hr Hs. eexists. split; [apply (getActivities_run Hr Hs)|].
  split; [apply (getActivitiesByDateRange_run startDate endDate Hr Hs)|]. split.
  - intros a. rewrite filter_In. unfold committed_within.
    rewrite andb_true_iff. tauto.
  - intros Hinv. rewrite (getActivitiesByDateRange_run startDate endDate Hr Hs).
    f_equal. generalize (map decode (ORDER_BY_committed_on_created_at_DESC rows)).
    intros l. induction l as [|x l IH]; simpl; [reflexivity|].
    destruct (committed_within startDate endDate x) eqn:Hx; [|exact IH].
    unfold committed_within in Hx. apply andb_true_iff in Hx.
    destruct Hx as [H1 H2].
    pose proof (Text.leb_trans _ _ _ H1 H2) as H.
    rewrite Text.ltb_negb_leb, H in Hinv. discriminate.
Qed.

Lemma date_range_filters_list_witness :
  exists l,
    getActivitiesByDateRange "2024-01-02" "2024-01-02" (ready_world three_days)
    = Returned l (ready_world three_days) /\
    map handle l = ["cook"].
Proof.
  destruct (date_range_filters_list "2024-01-02" "2024-01-02"
              (ready_world_READY three_days) three_days_stored)
    as (all & Hall & Hrun & _ & _).
  exists (filter (committed_within "2024-01-02" "2024-01-02") all).
  split; [exact Hrun|].
  assert (E : Returned all (ready_world three_days)
              = getActivities (ready_world three_days))
    by (symmetry; exact Hall).
  vm_compute in E. inversion E. reflexivity.
Defined.

(** ** Distinct tags *)

Lemma distinct_In (x : string) (l : list string) : In x (distinct l) <-> In x l.
Proof.
  induction l as [|y l IH]; simpl; [tauto|].
  rewrite filter_In, IH, negb_true_iff, String.eqb_neq.
  destruct (String.eqb_spec x y) as [->|Hne]; [tauto|].
  split; [tauto|]. intros [E|H]; [congruence|auto].
Qed.

Lemma Set_add_In (x t : string) (s : list string) :
  In t (Set_add s x) <-> In t s \/ t = x.
Proof.
  unfold Set_add. destruct (existsb (String.eqb x) s) eqn:Hx.
  - apply existsb_exists in Hx. destruct Hx as (y & Hy & E).
    apply String.eqb_eq in E. subst y.
    split; [auto|]. intros [H| ->]; assumption.
  - rewrite in_app_iff. simpl. intuition congruence.
Qed.

Lemma Set_add_NoDup (x : string) (s : list string) :
  NoDup s -> NoDup (Set_add s x).
Proof.
  intros H. unfold Set_add. destruct (existsb (String.eqb x) s) eqn:Hx; [exact H|].
  apply NoDup_app; [exact H|repeat constructor; auto|].
  intros y Hy [E|[]]. subst y.
  assert (Hex : existsb (String.eqb x) s = true).
  { apply existsb_exists. exists x. split; [exact Hy|apply String.eqb_refl]. }
  congruence.
Qed.

Lemma fold_Set_add_In (t : string) (ts : list string) : forall s,
  In t (fold_left Set_add ts s) <-> In t s \/ In t ts.
Proof.
  induction ts as [|x ts IH]; intros s; simpl; [tauto|].
  rewrite IH, Set_add_In. intuition congruence.
Qed.

Lemma fold_Set_add_NoDup (ts : list string) : forall s,
  NoDup s -> NoDup (fold_left Set_add ts s).
Proof.
  induction ts as [|x ts IH]; intros s H; simpl; [exact H|].
  apply IH. now apply Set_add_NoDup.
Qed.

Definition tags_of_text (text : string) : list string :=
  match JSON.JSON_parse text with
  | Some t => t
  | None => []
  end.

(** The members of [allTags] once every result row has been visited. *)
Definition gathered (result : list string) (allTags : list string)
  : list string :=
  fold_left (fun s text => fold_left Set_add (tags_of_text text) s)
    result allTags.

Lemma forEach_row_run (result : list string) : forall allTags w,
  Forall (fun text => JSON.JSON_parse text <> None) result ->
  forEach_row result allTags w = Returned (gathered result allTags) w.
Proof.
  induction result as [|text result IH]; intros allTags w H; simpl;
    [reflexivity|].
  inversion H as [|? ? Ht Hrest]; subst.
  unfold bind, JSON_parse. unfold gathered. simpl. unfold tags_of_text at 2.
  destruct (JSON.JSON_parse text) as [t|]; [|congruence].
  unfold ret. now apply IH.
Qed.

Lemma gathered_In (t : string) (result : list string) : forall s,
  In t (gathered result s) <->
  In t s \/ exists text, In text result /\ In t (tags_of_text text).
Proof.
  unfold gathered.
  induction result as [|text result IH]; intros s; simpl.
  - split; [auto|]. intros [H|(x & [] & _)]. exact H.
  - rewrite IH, fold_Set_add_In. split.
    + intros [[H|H]|(x & Hx & Ht)]; eauto 6.
    + intros [H|(x & [E|Hx] & Ht)]; subst; eauto 6.
Qed.

Lemma gathered_NoDup (result : list string) : forall s,
  NoDup s -> NoDup (gathered result s).
Proof.
  unfold gathered.
  induction result as [|text result IH]; intros s H; simpl; [exact H|].
  apply IH. now apply fold_Set_add_NoDup.
Qed.

Lemma Array_sort_strict (l : list string) :
  NoDup l -> StronglySorted Text.lt (Array_sort l).
Proof.
  intros Hnd.
  assert (Hs : StronglySorted (fun a b => String.leb a b = true) (Array_sort l)).
  { apply sort_by_sorted; [apply String.leb_total|apply Text.leb_trans]. }
  assert (Hnd' : NoDup (Array_sort l)).
  { eapply Permutation_NoDup; [apply sort_by_perm|exact Hnd]. }
  induction Hs as [|x s Hs IH Hx]; constructor.
  - apply IH. now inversion Hnd'.
  - inversion Hnd' as [|? ? Hnotin _]; subst.
    rewrite Forall_forall in *. intros y Hy.
    destruct (proj1 (Text.leb_ltb_or_eq x y) (Hx y Hy)) as [H|E];
      [exact H|]. subst y. contradiction.
Qed.

Lemma getAllTags_run (w : World) (rows : list Row) :
  READY w -> stored w rows ->
  getAllTags w
  = Returned (Array_sort (gathered (distinct (map row_tags rows)) [])) w.
Proof.
  intros Hr Hs. canonical_world w rows.
  unfold getAllTags. unfold_store. simpl.
  rewrite forEach_row_run; [reflexivity|].
  rewrite Forall_forall in *. intros text Htext.
  rewrite distinct_In, in_map_iff in Htext.
  destruct Htext as (row & <- & Hrow). now apply Hparse.
Qed.

Definition tagged_ab_bc : list Row :=
  [ row_of "1a" "walk" "2024-01-01" ["a"; "b"] "2024-01-05T08:00:00.000Z";
    row_of "2b" "read" "2024-01-03" ["b"; "c"] "2024-01-05T08:00:01.000Z" ].

(** C7: on a READY store [distinctTags()] returns a strictly increasing
    sequence (hence sorted and free of duplicates) whose members are
    exactly the tags that occur on some stored activity; with two
    activities tagged [a, b] and [b, c] it returns [a, b, c]. *)
Theorem distinct_tags_sorted_set (w : World) (rows : list Row) :
  READY w -> stored w rows ->
  (exists l,
     getAllTags w = Returned l w /\
     StronglySorted Text.lt l /\
     forall t, In t l <-> exists row, In row rows /\ In t (tags (decode row))) /\
  getAllTags (ready_world tagged_ab_bc)
  = Returned ["a"; "b"; "c"] (ready_world tagged_ab_bc).
Proof.
  intros Hr Hs. split; [|vm_compute; reflexivity].
  eexists. split; [apply (getAllTags_run Hr Hs)|]. split.
  - apply Array_sort_strict. apply gathered_NoDup. constructor.
  - intros t. unfold Array_sort. rewrite sort_by_In, gathered_In.
    split.
    + intros [[]|(text & Htext & Ht)].
      rewrite distinct_In, in_map_iff in Htext.
      destruct Htext as (row & <- & Hrow). exists row. split; [exact Hrow|].
      exact Ht.
    + intros (row & Hrow & Ht). right. exists (row_tags row). split.
      * apply distinct_In. now apply in_map.
      * exact Ht.
Qed.

Lemma distinct_tags_sorted_set_witness :
  exists l,
    getAllTags (ready_world three_days) = Returned l (ready_world three_days) /\
    StronglySorted Text.lt l.
Proof.
  destruct (distinct_tags_sorted_set (ready_world_READY three_days)
              three_days_stored) as [(l & Hrun & Hsorted & _) _].
  exists l. split; assumption.
Defined.

(** ** Worlds a running application can be in

    The theorems above speak of a READY world whose table is [stored].
    Every world reached from a process start by calls of the store is of
    that kind once it is READY. *)

Inductive call : Type :=
| Initialize (env : InitEnv)
| Add (r : Readings) (activity : NewActivity)
| List_all
| List_range (startDate endDate : string)
| Get (i : string)
| Update (r : Readings) (i : string) (updates : PartialNewActivity)
| Delete (i : string)
| Distinct_tags.

Definition world_of {A} (o : outcome A) : World :=
  match o with
  | Returned _ w => w
  | Thrown _ w => w
  end.

Definition world_after (c : call) (w : World) : World :=
  match c with
  | Initialize env => world_of (initialize env w)
  | Add r activity => world_of (addActivity r activity w)
  | List_all => world_of (getActivities w)
  | List_range s e => world_of (getActivitiesByDateRange s e w)
  | Get i => world_of (getActivityById i w)
  | Update r i updates => world_of (updateActivity r i updates w)
  | Delete i => world_of (deleteActivity i w)
  | Distinct_tags => world_of (getAllTags w)
  end.

(** Rows only ever hold encoded tag lists, and an initialized store has
    its table. *)
Definition consistent (w : World) : Prop :=
  match activities (file w) with
  | Some rows => Forall parseable rows
  | None => isInitialized (service w) = false
  end.

Inductive reachable : World -> Prop :=
| reach_start (f : DbFile) :
    consistent {| service := {| db := None; isInitialized := false |};
                  file := f |} ->
    reachable {| service := {| db := None; isInitialized := false |};
                 file := f |}
| reach_call (c : call) (w : World) :
    reachable w -> reachable (world_after c w).

Lemma guard_fails (A : Type) (k : unit -> M A) (w : World) :
  ~ READY w -> bind ensureInitialized k w = Thrown NotInitialized w.
Proof.
  intros H. unfold bind. now rewrite (ensureInitialized_not_ready H).
Qed.

Lemma READY_dec (w : World) : READY w \/ ~ READY w.
Proof.
  destruct w as [[[h|] [|]] f]; unfold READY; simpl;
    try (right; intros [H1 H2]; congruence).
  left. split; [reflexivity|discriminate].
Qed.

Lemma consistent_ready_stored (w : World) :
  consistent w -> READY w -> exists rows, stored w rows.
Proof.
  unfold consistent, stored. intros Hc [Hinit _].
  destruct (activities (file w)) as [rows|]; [|congruence].
  now exists rows.
Qed.

Lemma with_rows_consistent (w : World) (rows : list Row) :
  Forall parseable rows -> consistent (with_rows w rows).
Proof. intros H. exact H. Qed.

Lemma initialize_consistent (env : InitEnv) (w : World) :
  consistent w -> consistent (world_of (initialize env w)).
Proof.
  destruct w as [[d init] [acts i1 i2]]. unfold consistent. simpl.
  intros Hc. unfold initialize. unfold_store. simpl.
  destruct (open_answer env) as [[h|]|msg];
    destruct (exec_fault env 0) as [m0|];
    destruct (exec_fault env 1) as [m1|];
    destruct (exec_fault env 2) as [m2|];
    destruct init; destruct d; destruct acts; simpl in *;
    try exact Hc; try reflexivity; try constructor; try discriminate.
Qed.

Lemma deleteActivity_run (w : World) (rows : list Row) (i : string) :
  READY w -> stored w rows ->
  deleteActivity i w
  = Returned (Nat.ltb 0 (length (filter (has_id i) rows)))
      (with_rows w (filter (fun r => negb (has_id i r)) rows)).
Proof.
  intros Hr Hs. canonical_world w rows. reflexivity.
Qed.

Lemma world_after_consistent (c : call) (w : World) :
  consistent w -> consistent (world_after c w).
Proof.
  intros Hc. destruct c as [env|r a| |s e|i|r i u|i| ];
    [now apply initialize_consistent|..];
    (destruct (READY_dec w) as [Hr|Hn];
     [destruct (consistent_ready_stored Hc Hr) as (rows & Hs)
     |unfold world_after, addActivity, getActivities,
        getActivitiesByDateRange, getActivityById, updateActivity,
        deleteActivity, getAllTags;
      rewrite (guard_fails _ Hn); exact Hc]);
    unfold world_after.
  - rewrite (addActivity_run r a Hr Hs).
    destruct (existsb (has_id (fresh_id r)) rows); [exact Hc|].
    apply with_rows_consistent. apply Forall_app. split; [apply Hs|].
    constructor; [apply stringify_parseable|constructor].
  - now rewrite (getActivities_run Hr Hs).
  - now rewrite (getActivitiesByDateRange_run s e Hr Hs).
  - now rewrite (getActivityById_run i Hr Hs).
  - destruct (find (has_id i) rows) as [row|] eqn:Hfind.
    + rewrite (@updateActivity_run w rows r i u row Hr Hs Hfind).
      apply with_rows_consistent. apply rewritten_parseable. apply Hs.
    + now rewrite (@updateActivity_absent w rows r i u Hr Hs Hfind).
  - rewrite (deleteActivity_run i Hr Hs). apply with_rows_consistent.
    destruct Hs as [_ Hp]. rewrite Forall_forall in *.
    intros x Hx. apply filter_In in Hx. now apply Hp.
  - now rewrite (getAllTags_run Hr Hs).
Qed.

Lemma reachable_consistent (w : World) : reachable w -> consistent w.
Proof.
  induction 1 as [f Hf|c w _ IH]; [exact Hf|].
  now apply world_after_consistent.
Qed.

(** A READY world that the application reached has a stored table. *)
Lemma reachable_ready_stored (w : World) :
  reachable w -> READY w -> exists rows, stored w rows.
Proof.
  intros Hreach. apply consistent_ready_stored.
  now apply reachable_consistent.
Qed.

Example fresh_id_noon : fresh_id noon = "1704110400000k3j9x0q2m".
Proof. reflexivity. Qed.

(** ** The self-test ([DatabaseService.testDatabase]) *)

(** SELECT name FROM sqlite_master WHERE type = 'table'. *)
Definition SELECT_table_names (_ : SQLiteDatabase) : M (list string) :=
  f <- get_file ;;
  ret (match activities f with
       | Some _ => ["activities"]
       | None => []
       end).

Definition testDatabase : M bool :=
  try_catch
    (ensureInitialized ;;
     h <- db_nonnull ;;
     _ <- SELECT_table_names h ;;
     ret true)
    (fun _ => ret false).

(** X1: [testDatabase] never throws and never changes the world; it
    answers true exactly when the store is READY. *)
Theorem testDatabase_reports_ready (w : World) :
  exists b, testDatabase w = Returned b w /\ (b = true <-> READY w).
Proof.
  destruct w as [[[h|] [|]] f]; unfold testDatabase; unfold_store; simpl;
    eexists; (split; [reflexivity|]); unfold READY; simpl;
    split; try discriminate; try (intros [H1 H2]; congruence).
  intros _. split; [reflexivity|discriminate].
Qed.

(** ** More on the operations of the store *)

Definition unique_ids (w : World) : Prop :=
  match activities (file w) with
  | Some rows => NoDup (map row_id rows)
  | None => True
  end.

Lemma existsb_has_id_In (i : string) (rows : list Row) :
  existsb (has_id i) rows = false -> ~ In i (map row_id rows).
Proof.
  intros H Hin. apply in_map_iff in Hin. destruct Hin as (r & Hid & Hr).
  assert (Ht : existsb (has_id i) rows = true).
  { apply existsb_exists. exists r. split; [exact Hr|]. now apply String.eqb_eq. }
  congruence.
Qed.

Lemma set_columns_id (h c t u i : string) (r : Row) :
  row_id (set_columns h c t u i r) = row_id r.
Proof. unfold set_columns. now destruct (has_id i r). Qed.

Lemma map_rewritten_ids (u : Activity) (i : string) (rows : list Row) :
  map row_id (map (rewritten u i) rows) = map row_id rows.
Proof.
  rewrite map_map. apply map_ext. intros r. apply set_columns_id.
Qed.

Lemma ids_filter_NoDup (keep : Row -> bool) (rows : list Row) :
  NoDup (map row_id rows) -> NoDup (map row_id (filter keep rows)).
Proof.
  induction rows as [|r rows IH]; simpl; [auto|].
  intros H. inversion H as [|? ? Hr Hrows]; subst.
  destruct (keep r); simpl; [|auto].
  constructor; [|auto]. intros Hin. apply Hr.
  apply in_map_iff in Hin. destruct Hin as (y & E & Hy).
  apply filter_In in Hy. rewrite <- E. apply in_map. apply Hy.
Qed.

(** What [initialize] does to the table, whatever happens on the way. *)
Lemma initialize_table (env : InitEnv) (w : World) :
  activities (file (world_of (initialize env w))) = activities (file w) \/
  (activities (file w) = None /\
   activities (file (world_of (initialize env w))) = Some []).
Proof.
  destruct w as [[d init] [acts i1 i2]]. unfold initialize. unfold_store. simpl.
  destruct (open_answer env) as [[h|]|msg];
    destruct (exec_fault env 0) as [m0|];
    destruct (exec_fault env 1) as [m1|];
    destruct (exec_fault env 2) as [m2|];
    destruct init; destruct d; destruct acts; simpl; auto.
Qed.

(** X2: [initialize] never loses or alters stored rows: when the table
    exists the rows after the call, whether it returns or throws, are the
    rows before it. *)
Theorem initialize_keeps_rows (env : InitEnv) (w : World) (rows : list Row) :
  activities (file w) = Some rows ->
  activities (file (world_of (initialize env w))) = Some rows.
Proof.
  intros H. destruct (initialize_table env w) as [E|[E _]]; congruence.
Qed.

Definition unplugged : World :=
  {| service := {| db := None; isInitialized := false |};
     file := {| activities := Some three_days;
                idx_activities_committed_on := true;
                idx_activities_handle := true |} |}.

Lemma initialize_keeps_rows_witness :
  activities (file (world_of (initialize index_refused unplugged)))
  = Some three_days.
Proof.
  apply (@initialize_keeps_rows index_refused unplugged three_days).
  reflexivity.
Defined.

(** X3: the primary key holds: on a world whose rows hold encoded tag
    lists and pairwise distinct ids, every call of the store leaves the
    ids pairwise distinct. *)
Theorem ids_stay_unique (c : call) (w : World) :
  consistent w -> unique_ids w -> unique_ids (world_after c w).
Proof.
  intros Hc Hu. destruct c as [env|r a| |s e|i|r i u|i| ].
  { unfold world_after, unique_ids in *.
    destruct (initialize_table env w) as [E|[_ E]]; rewrite E;
      [exact Hu|constructor]. }
  all: destruct (READY_dec w) as [Hr|Hn];
    [destruct (consistent_ready_stored Hc Hr) as (rows & Hs)
    |unfold world_after, addActivity, getActivities,
       getActivitiesByDateRange, getActivityById, updateActivity,
       deleteActivity, getAllTags;
     rewrite (guard_fails _ Hn); exact Hu];
    unfold world_after;
    assert (Hrows : NoDup (map row_id rows))
      by (unfold unique_ids in Hu; destruct Hs as [E _]; now rewrite E in Hu).
  - rewrite (addActivity_run r a Hr Hs).
    destruct (existsb (has_id (fresh_id r)) rows) eqn:Hfresh; [exact Hu|].
    unfold unique_ids. simpl. rewrite map_app. simpl.
    apply NoDup_app; [exact Hrows|repeat constructor; auto|].
    intros x Hx [E|[]]. subst x.
    now apply (existsb_has_id_In _ _ Hfresh).
  - now rewrite (getActivities_run Hr Hs).
  - now rewrite (getActivitiesByDateRange_run s e Hr Hs).
  - now rewrite (getActivityById_run i Hr Hs).
  - destruct (find (has_id i) rows) as [row|] eqn:Hfind.
    + rewrite (@updateActivity_run w rows r i u row Hr Hs Hfind).
      unfold unique_ids. simpl. now rewrite map_rewritten_ids.
    + now rewrite (@updateActivity_absent w rows r i u Hr Hs Hfind).
  - rewrite (deleteActivity_run i Hr Hs). unfold unique_ids. simpl.
    now apply ids_filter_NoDup.
  - now rewrite (getAllTags_run Hr Hs).
Qed.

Lemma three_days_consistent : consistent (ready_world three_days).
Proof. exact (proj2 three_days_stored). Defined.

Lemma three_days_unique : unique_ids (ready_world three_days).
Proof.
  unfold unique_ids. simpl.
  repeat (constructor; [simpl; intuition discriminate|]). constructor.
Defined.

Lemma ids_stay_unique_witness :
  unique_ids (world_after (Add noon activity_h) (ready_world three_days)).
Proof.
  apply (@ids_stay_unique (Add noon activity_h) (ready_world three_days)
           three_days_consistent three_days_unique).
Defined.

(** X4: [add] never overwrites: when the id it draws is already stored,
    the INSERT is refused, the call throws and the world is unchanged. *)
Theorem add_taken_id_rejected (w : World) (rows : list Row) (r : Readings)
  (activity : NewActivity) (row : Row) :
  READY w -> stored w rows -> find (has_id (fresh_id r)) rows = Some row ->
  addActivity r activity w = Thrown unique_failed w.
Proof.
  intros Hr Hs Hfind. rewrite (addActivity_run r activity Hr Hs).
  destruct (existsb (has_id (fresh_id r)) rows) eqn:E; [reflexivity|].
  apply find_none_existsb in E. congruence.
Qed.

Definition taken : Readings :=
  {| Date_now := 1; random_suffix := "a"; iso_now := "2024-02-01T00:00:00.000Z" |}.

Lemma add_taken_id_rejected_witness :
  addActivity taken activity_h (ready_world three_days)
  = Thrown unique_failed (ready_world three_days).
Proof.
  apply (@add_taken_id_rejected (ready_world three_days) three_days taken
           activity_h
           (row_of "1a" "walk" "2024-01-01" ["a"; "b"] "2024-01-05T08:00:00.000Z")
           (ready_world_READY three_days) three_days_stored).
  reflexivity.
Defined.

Lemma find_append (A : Type) (p : A -> bool) (l1 l2 : list A) :
  find p (l1 ++ l2)
  = match find p l1 with
    | Some x => Some x
    | None => find p l2
    end.
Proof.
  induction l1 as [|x l1 IH]; simpl; [reflexivity|].
  now destruct (p x).
Qed.

(** X5: after a successful [add], [list()] holds the new activity and
    every activity it held before, each as often as before, and every
    other id reads back as before. *)
Theorem add_extends_listing (w : World) (rows : list Row) (r : Readings)
  (activity : NewActivity) (a : Activity) (w' : World) :
  READY w -> stored w rows ->
  addActivity r activity w = Returned a w' ->
  exists before after,
    getActivities w = Returned before w /\
    getActivities w' = Returned after w' /\
    Permutation (a :: before) after /\
    forall j, j <> id a ->
      exists x, getActivityById j w = Returned x w /\
                getActivityById j w' = Returned x w'.
Proof.
  intros Hr Hs Hadd. rewrite (addActivity_run r activity Hr Hs) in Hadd.
  destruct (existsb (has_id (fresh_id r)) rows) eqn:Hfresh; [discriminate|].
  inversion Hadd; subst a w'; clear Hadd.
  assert (Hs' : stored (with_rows w (rows ++ [inserted_row r activity]))
                  (rows ++ [inserted_row r activity])).
  { apply with_rows_stored. apply Forall_app. split; [apply Hs|].
    constructor; [apply stringify_parseable|constructor]. }
  eexists. eexists. split; [apply (getActivities_run Hr Hs)|].
  split; [apply (getActivities_run (with_rows_READY _ Hr) Hs')|]. split.
  - rewrite <- map_cons. apply Permutation_map.
    unfold ORDER_BY_committed_on_created_at_DESC.
    rewrite <- (sort_by_perm row_precedes (rows ++ [inserted_row r activity])).
    rewrite <- (sort_by_perm row_precedes rows).
    apply Permutation_cons_append.
  - intros j Hj. eexists. split; [apply (getActivityById_run j Hr Hs)|].
    rewrite (getActivityById_run j (with_rows_READY _ Hr) Hs').
    f_equal. f_equal. rewrite find_append.
    destruct (find (has_id j) rows); [reflexivity|]. simpl.
    unfold has_id. simpl.
    destruct (String.eqb_spec (fresh_id r) j) as [E|_]; [|reflexivity].
    exfalso. apply Hj. simpl. now rewrite E.
Qed.

Lemma add_extends_listing_witness :
  exists before after,
    getActivities (ready_world three_days) = Returned before (ready_world three_days) /\
    getActivities (with_rows (ready_world three_days)
                     (three_days ++ [inserted_row noon activity_h]))
    = Returned after (with_rows (ready_world three_days)
                        (three_days ++ [inserted_row noon activity_h])) /\
    length after = 4.
Proof.
  destruct (@add_extends_listing (ready_world three_days) three_days noon
              activity_h (decode (inserted_row noon activity_h))
              (with_rows (ready_world three_days)
                 (three_days ++ [inserted_row noon activity_h]))
              (ready_world_READY three_days) three_days_stored eq_refl)
    as (before & after & Hb & Ha & Hperm & _).
  exists before, after. split; [exact Hb|]. split; [exact Ha|].
  rewrite <- (Permutation_length Hperm). simpl. f_equal.
  assert (E : Returned before (ready_world three_days)
              = getActivities (ready_world three_days))
    by (symmetry; exact Hb).
  vm_compute in E. inversion E. reflexivity.
Defined.

Definition not_id (i : string) (a : Activity) : bool := negb (String.eqb (id a) i).

Lemma filter_map_decode (i : string) (l : list Row) :
  map decode (filter (fun r => negb (has_id i r)) l)
  = filter (not_id i) (map decode l).
Proof.
  induction l as [|x l IH]; simpl; [reflexivity|].
  unfold not_id at 1, has_id at 1. simpl.
  destruct (String.eqb (row_id x) i); simpl; now rewrite IH.
Qed.

Lemma find_filter_not_id (i j : string) (rows : list Row) :
  find (has_id j) (filter (fun r => negb (has_id i r)) rows)
  = if String.eqb i j then None else find (has_id j) rows.
Proof.
  induction rows as [|x rows IH]; simpl; [now destruct (String.eqb i j)|].
  destruct (has_id i x) eqn:Hi; simpl.
  - rewrite IH. destruct (String.eqb_spec i j) as [E|Hne]; [reflexivity|].
    apply String.eqb_eq in Hi.
    unfold has_id. destruct (String.eqb_spec (row_id x) j); [congruence|reflexivity].
  - destruct (has_id j x) eqn:Hj; [|exact IH].
    apply String.eqb_eq in Hj. apply String.eqb_neq in Hi.
    destruct (String.eqb_spec i j); [congruence|reflexivity].
Qed.

(** X6: after [delete(id)] on a READY store the id reads back as null, a
    second [delete(id)] returns false and changes nothing, and [list()]
    is the former listing without the activities of that id, in the same
    order. *)
Theorem delete_then_absent (w : World) (rows : list Row) (i : string) :
  READY w -> stored w rows ->
  exists b w' before,
    deleteActivity i w = Returned b w' /\
    getActivityById i w' = Returned None w' /\
    deleteActivity i w' = Returned false w' /\
    getActivities w = Returned before w /\
    getActivities w' = Returned (filter (not_id i) before) w'.
Proof.
  intros Hr Hs.
  set (rows' := filter (fun r => negb (has_id i r)) rows).
  assert (Hs' : stored (with_rows w rows') rows').
  { apply with_rows_stored. destruct Hs as [_ Hp].
    rewrite Forall_forall in *. intros x Hx. apply filter_In in Hx.
    now apply Hp. }
  assert (Hr' : READY (with_rows w rows')) by now apply with_rows_READY.
  assert (Hgone : find (has_id i) rows' = None).
  { unfold rows'. rewrite find_filter_not_id. now rewrite String.eqb_refl. }
  eexists. eexists. eexists.
  split; [apply (deleteActivity_run i Hr Hs)|]. fold rows'.
  split; [rewrite (getActivityById_run i Hr' Hs'), Hgone; reflexivity|].
  split.
  - rewrite (deleteActivity_run i Hr' Hs').
    apply find_none_existsb in Hgone.
    destruct (filter_none_id _ _ Hgone) as [H1 H2]. rewrite H1, H2.
    reflexivity.
  - split; [apply (getActivities_run Hr Hs)|].
    rewrite (getActivities_run Hr' Hs'). f_equal.
    unfold rows', ORDER_BY_committed_on_created_at_DESC.
    rewrite <- (filter_sort_by row_precedes row_precedes_total row_precedes_trans).
    apply filter_map_decode.
Qed.

Lemma delete_then_absent_witness :
  exists b w',
    deleteActivity "2b" (ready_world three_days) = Returned b w' /\
    getActivityById "2b" w' = Returned None w'.
Proof.
  destruct (delete_then_absent "2b" (ready_world_READY three_days)
              three_days_stored)
    as (b & w' & before & Hdel & Hget & _).
  exists b, w'. split; assumption.
Defined.

Lemma find_map_rewritten_other (u : Activity) (i j : string) (rows : list Row) :
  j <> i ->
  find (has_id j) (map (rewritten u i) rows) = find (has_id j) rows.
Proof.
  intros Hne. induction rows as [|x rows IH]; simpl; [reflexivity|].
  assert (Hsame : has_id j (rewritten u i x) = has_id j x).
  { unfold has_id, rewritten. now rewrite set_columns_id. }
  rewrite Hsame. destruct (has_id j x) eqn:Hj; [|exact IH].
  f_equal. unfold rewritten, set_columns.
  destruct (has_id i x) eqn:Hi; [|reflexivity].
  apply String.eqb_eq in Hi, Hj. congruence.
Qed.

Lemma map_rewritten_created (u : Activity) (i : string) (rows : list Row) :
  map row_created_at (map (rewritten u i) rows) = map row_created_at rows.
Proof.
  rewrite map_map. apply map_ext. intros r.
  unfold rewritten, set_columns. now destruct (has_id i r).
Qed.

(** X7: a successful [update(id, ...)] touches no other activity: every
    other id reads back as before, and the table keeps its rows' ids and
    created_at values, in the same order. *)
Theorem update_leaves_others (w : World) (rows : list Row) (r : Readings)
  (i : string) (updates : PartialNewActivity) (u : Activity) (w' : World) :
  READY w -> stored w rows ->
  updateActivity r i updates w = Returned (Some u) w' ->
  (forall j, j <> i ->
     exists x, getActivityById j w = Returned x w /\
               getActivityById j w' = Returned x w') /\
  exists rows',
    stored w' rows' /\
    map row_id rows' = map row_id rows /\
    map row_created_at rows' = map row_created_at rows.
Proof.
  intros Hr Hs Hrun.
  destruct (find (has_id i) rows) as [row|] eqn:Hfind.
  - rewrite (@updateActivity_run w rows r i updates row Hr Hs Hfind) in Hrun.
    inversion Hrun; subst u w'; clear Hrun.
    set (u := spread (decode row) updates (iso_now r)).
    assert (Hs' : stored (with_rows w (map (rewritten u i) rows))
                    (map (rewritten u i) rows)).
    { apply with_rows_stored. apply rewritten_parseable. apply Hs. }
    split.
    + intros j Hj. eexists. split; [apply (getActivityById_run j Hr Hs)|].
      rewrite (getActivityById_run j (with_rows_READY _ Hr) Hs').
      now rewrite find_map_rewritten_other.
    + exists (map (rewritten u i) rows). split; [exact Hs'|]. split.
      * apply map_rewritten_ids.
      * apply map_rewritten_created.
  - rewrite (@updateActivity_absent w rows r i updates Hr Hs Hfind) in Hrun.
    discriminate.
Qed.

Lemma update_leaves_others_witness :
  exists x,
    getActivityById "1a" (ready_world three_days)
    = Returned x (ready_world three_days) /\
    getActivityById "1a"
      (world_of (updateActivity noon "2b" (only_tags ["z"]) (ready_world three_days)))
    = Returned x
        (world_of (updateActivity noon "2b" (only_tags ["z"]) (ready_world three_days))).
Proof.
  refine (proj1 (@update_leaves_others (ready_world three_days) three_days noon
            "2b" (only_tags ["z"]) _ _
            (ready_world_READY three_days) three_days_stored eq_refl) "1a" _).
  discriminate.
Defined.

Lemma getAllTags_members (rows : list Row) (t : string) :
  In t (Array_sort (gathered (distinct (map row_tags rows)) [])) <->
  exists row, In row rows /\ In t (tags (decode row)).
Proof.
  unfold Array_sort. rewrite sort_by_In, gathered_In. split.
  - intros [[]|(text & Htext & Ht)].
    rewrite distinct_In, in_map_iff in Htext.
    destruct Htext as (row & <- & Hrow). exists row. split; [exact Hrow|exact Ht].
  - intros (row & Hrow & Ht). right. exists (row_tags row). split.
    + apply distinct_In. now apply in_map.
    + exact Ht.
Qed.

(** X8: after a successful [add], [distinctTags()] holds exactly the
    tags it held before together with the tags of the new activity. *)
Theorem add_extends_tags (w : World) (rows : list Row) (r : Readings)
  (activity : NewActivity) (a : Activity) (w' : World) :
  READY w -> stored w rows ->
  addActivity r activity w = Returned a w' ->
  exists before after,
    getAllTags w = Returned before w /\
    getAllTags w' = Returned after w' /\
    forall t, In t after <-> In t before \/ In t (new_tags activity).
Proof.
  intros Hr Hs Hadd. rewrite (addActivity_run r activity Hr Hs) in Hadd.
  destruct (existsb (has_id (fresh_id r)) rows) eqn:Hfresh; [discriminate|].
  inversion Hadd; subst a w'; clear Hadd.
  assert (Hs' : stored (with_rows w (rows ++ [inserted_row r activity]))
                  (rows ++ [inserted_row r activity])).
  { apply with_rows_stored. apply Forall_app. split; [apply Hs|].
    constructor; [apply stringify_parseable|constructor]. }
  eexists. eexists. split; [apply (getAllTags_run Hr Hs)|].
  split; [apply (getAllTags_run (with_rows_READY _ Hr) Hs')|].
  intros t. rewrite !getAllTags_members. split.
  - intros (row & Hrow & Ht). apply in_app_or in Hrow.
    destruct Hrow as [Hrow|[E|[]]]; [left; eauto|].
    right. subst row. unfold decode, inserted_row in Ht. simpl in Ht.
    now rewrite JSON.parse_stringify in Ht.
  - intros [(row & Hrow & Ht)|Ht].
    + exists row. split; [apply in_or_app; now left|exact Ht].
    + exists (inserted_row r activity). split; [apply in_or_app; right; now left|].
      unfold decode, inserted_row. simpl. now rewrite JSON.parse_stringify.
Qed.

Lemma add_extends_tags_witness :
  exists before after,
    getAllTags (ready_world three_days) = Returned before (ready_world three_days) /\
    getAllTags (with_rows (ready_world three_days)
                  (three_days ++ [inserted_row noon activity_h]))
    = Returned after (with_rows (ready_world three_days)
                        (three_days ++ [inserted_row noon activity_h])) /\
    (In "a" after <-> In "a" before \/ In "a" ["a"]).
Proof.
  destruct (@add_extends_tags (ready_world three_days) three_days noon
              activity_h (decode (inserted_row noon activity_h))
              (with_rows (ready_world three_days)
                 (three_days ++ [inserted_row noon activity_h]))
              (ready_world_READY three_days) three_days_stored eq_refl)
    as (before & after & Hb & Ha & Hmem).
  exists before, after. split; [exact Hb|]. split; [exact Ha|]. apply Hmem.
Defined.

(** X9: on every world the application can reach, the reads of a READY
    store return: no stored row ever makes [list()], a date-range
    listing, [getById] or [distinctTags()] throw. *)
Theorem reachable_reads_return (w : World) (i startDate endDate : string) :
  reachable w -> READY w ->
  (exists l, getActivities w = Returned l w) /\
  (exists l, getActivitiesByDateRange startDate endDate w = Returned l w) /\
  (exists x, getActivityById i w = Returned x w) /\
  (exists t, getAllTags w = Returned t w).
Proof.
  intros Hreach Hr.
  destruct (consistent_ready_stored (reachable_consistent Hreach) Hr)
    as (rows & Hs).
  repeat split; eexists.
  - apply (getActivities_run Hr Hs).
  - apply (getActivitiesByDateRange_run startDate endDate Hr Hs).
  - apply (getActivityById_run i Hr Hs).
  - apply (getAllTags_run Hr Hs).
Qed.

Definition after_start_and_add : World :=
  world_after (Add noon activity_h) (world_after (Initialize quiet) initial_world).

Lemma after_start_and_add_reachable : reachable after_start_and_add.
Proof.
  unfold after_start_and_add. apply reach_call. apply reach_call.
  apply (reach_start (file initial_world)). reflexivity.
Defined.

Lemma reachable_reads_return_witness :
  exists l, getActivities after_start_and_add = Returned l after_start_and_add.
Proof.
  refine (proj1 (@reachable_reads_return after_start_and_add "x" "a" "b"
                   after_start_and_add_reachable _)).
  split; [reflexivity|discriminate].
Defined.

(** ** String and array built-ins the screens use

    On strings of 8-bit code units: [String.prototype.trim] strips the
    white space and line terminators below 256, [toLowerCase] maps the
    capital letters of Latin-1, [includes] is the substring test, and
    [Array.prototype.includes] compares with string equality. *)

Module JS.

Definition is_space (c : ascii) : bool :=
  let n := N_of_ascii c in
  ((n =? 9) || (n =? 10) || (n =? 11) || (n =? 12) || (n =? 13)
   || (n =? 32) || (n =? 160))%N.

Fixpoint trimStart (s : string) : string :=
  match s with
  | EmptyString => EmptyString
  | String c s' => if is_space c then trimStart s' else s
  end.

Fixpoint trimEnd (s : string) : string :=
  match s with
  | EmptyString => EmptyString
  | String c s' =>
      match trimEnd s' with
      | EmptyString => if is_space c then EmptyString else String c EmptyString
      | t => String c t
      end
  end.

Definition trim (s : string) : string := trimEnd (trimStart s).

(** A string is falsy exactly when it is empty. *)
Definition truthy (s : string) : bool :=
  match s with
  | EmptyString => false
  | String _ _ => true
  end.

Definition lower_char (c : ascii) : ascii :=
  let n := N_of_ascii c in
  if ((65 <=? n) && (n <=? 90))%N then ascii_of_N (n + 32)
  else if ((192 <=? n) && (n <=? 222) && negb (n =? 215))%N
       then ascii_of_N (n + 32)
       else c.

Fixpoint toLowerCase (s : string) : string :=
  match s with
  | EmptyString => EmptyString
  | String c s' => String (lower_char c) (toLowerCase s')
  end.

Fixpoint startsWith (s sub : string) {struct sub} : bool :=
  match sub, s with
  | EmptyString, _ => true
  | String _ _, EmptyString => false
  | String c sub', String d s' => Ascii.eqb c d && startsWith s' sub'
  end.

(** [s.includes(sub)]. *)
Fixpoint includes (s sub : string) : bool :=
  startsWith s sub ||
  match s with
  | EmptyString => false
  | String _ s' => includes s' sub
  end.

(** [array.includes(x)]. *)
Definition Array_includes (l : list string) (x : string) : bool :=
  existsb (String.eqb x) l.

(** [array.some(p)]. *)
Definition Array_some {A} (p : A -> bool) (l : list A) : bool := existsb p l.

Lemma trimEnd_idempotent (s : string) : trimEnd (trimEnd s) = trimEnd s.
Proof.
  induction s as [|c s IH]; simpl; [reflexivity|].
  destruct (trimEnd s) as [|d t] eqn:E.
  - destruct (is_space c) eqn:Hc; simpl; [reflexivity|]. now rewrite Hc.
  - simpl. simpl in IH. now rewrite IH.
Qed.

Lemma trimStart_trimEnd (s : string) :
  trimStart (trimEnd s) = trimEnd (trimStart s).
Proof.
  induction s as [|c s IH]; simpl; [reflexivity|].
  destruct (is_space c) eqn:Hc.
  - destruct (trimEnd s) as [|d t] eqn:E; simpl.
    + simpl in IH. exact IH.
    + rewrite Hc. exact IH.
  - simpl. destruct (trimEnd s) as [|d t]; simpl; now rewrite Hc.
Qed.

Lemma trimStart_idempotent (s : string) : trimStart (trimStart s) = trimStart s.
Proof.
  induction s as [|c s IH]; simpl; [reflexivity|].
  destruct (is_space c) eqn:Hc; [exact IH|]. simpl. now rewrite Hc.
Qed.

Lemma trim_idempotent (s : string) : trim (trim s) = trim s.
Proof.
  unfold trim. rewrite trimStart_trimEnd, trimStart_idempotent.
  apply trimEnd_idempotent.
Qed.

Lemma lower_char_space (c : ascii) : is_space (lower_char c) = is_space c.
Proof. destruct c as [[] [] [] [] [] [] [] []]; reflexivity. Qed.

Lemma lower_char_idempotent (c : ascii) : lower_char (lower_char c) = lower_char c.
Proof. destruct c as [[] [] [] [] [] [] [] []]; reflexivity. Qed.

Lemma toLowerCase_idempotent (s : string) :
  toLowerCase (toLowerCase s) = toLowerCase s.
Proof.
  induction s as [|c s IH]; simpl; [reflexivity|].
  now rewrite lower_char_idempotent, IH.
Qed.


(** Being blank does not depend on the case of the letters. *)
Lemma trim_lower_truthy (s : string) :
  truthy (trim (toLowerCase s)) = truthy (trim s).
Proof.
  unfold trim.
  assert (Hstart : trimStart (toLowerCase s) = toLowerCase (trimStart s)).
  { induction s as [|c s IH]; simpl; [reflexivity|].
    rewrite lower_char_space. now destruct (is_space c). }
  rewrite Hstart. generalize (trimStart s). clear. intros s.
  assert (Hend : trimEnd (toLowerCase s) = toLowerCase (trimEnd s)).
  { induction s as [|c s IH]; simpl; [reflexivity|].
    rewrite IH. destruct (trimEnd s); simpl; [|reflexivity].
    rewrite lower_char_space. now destruct (is_space c). }
  rewrite Hend. now destruct (trimEnd s).
Qed.

Lemma startsWith_spec (s sub : string) :
  startsWith s sub = true <-> exists post, s = (sub ++ post)%string.
Proof.
  revert s. induction sub as [|c sub IH]; intros s; simpl.
  - split; [intros _; now exists s|reflexivity].
  - destruct s as [|d s].
    + split; [discriminate|intros (post & H); discriminate].
    + rewrite andb_true_iff, IH. split.
      * intros [Hc (post & ->)]. apply Ascii.eqb_eq in Hc. subst. now exists post.
      * intros (post & H). inversion H; subst. split; [apply Ascii.eqb_refl|].
        now exists post.
Qed.

Lemma includes_spec (s sub : string) :
  includes s sub = true <-> exists pre post, s = (pre ++ sub ++ post)%string.
Proof.
  induction s as [|d s IH]; simpl.
  - rewrite orb_false_r, startsWith_spec. split.
    + intros (post & H). now exists EmptyString, post.
    + intros (pre & post & H). destruct pre; [now exists post|discriminate].
  - rewrite orb_true_iff, startsWith_spec, IH. split.
    + intros [(post & H)|(pre & post & H)].
      * now exists EmptyString, post.
      * exists (String d pre), post. simpl. now rewrite H.
    + intros (pre & post & H). destruct pre as [|c pre].
      * left. now exists post.
      * right. simpl in H. inversion H; subst. now exists pre, post.
Qed.

Lemma includes_refl (s : string) : includes s s = true.
Proof.
  apply includes_spec. exists EmptyString, EmptyString. simpl.
  now rewrite JSON.append_nil_r.
Qed.






End JS.

(** ** Screens

    A handler of a screen reads the state of the render it was created
    in, calls the store, and leaves a new state, a new world and the
    alerts it raised.  Console output is not part of the model. *)

Inductive press : Type :=
| Dismiss                 (* no handler on the button *)
| GoBack                  (* navigation.goBack() *).

Record alert : Type := {
  alert_title : string;
  alert_message : string;
  on_OK : press
}.

Definition Alert (title message : string) : alert :=
  {| alert_title := title; alert_message := message; on_OK := Dismiss |}.

Definition Alert_then_back (title message : string) : alert :=
  {| alert_title := title; alert_message := message; on_OK := GoBack |}.

(** Tag lists as the tag editors build them: no tag twice, none empty,
    none with white space at either end. *)
Definition clean_tags (l : list string) : Prop :=
  NoDup l /\ Forall (fun t => t <> EmptyString /\ JS.trim t = t) l.

Lemma truthy_nonempty (s : string) : JS.truthy s = true <-> s <> EmptyString.
Proof. destruct s; simpl; split; congruence. Qed.

Lemma Array_includes_In (l : list string) (x : string) :
  JS.Array_includes l x = true <-> In x l.
Proof.
  unfold JS.Array_includes. rewrite existsb_exists. split.
  - intros (y & Hy & E). apply String.eqb_eq in E. now subst.
  - intros H. exists x. split; [exact H|apply String.eqb_refl].
Qed.

Lemma clean_tags_snoc (l : list string) (text : string) :
  clean_tags l ->
  JS.truthy (JS.trim text) = true ->
  JS.Array_includes l (JS.trim text) = false ->
  clean_tags (l ++ [JS.trim text]).
Proof.
  intros [Hnd Hall] Ht Hnew. split.
  - apply NoDup_app; [exact Hnd|repeat constructor; auto|].
    intros x Hx [E|[]]. subst x.
    apply Array_includes_In in Hx. congruence.
  - apply Forall_app. split; [exact Hall|]. constructor; [|constructor].
    split; [now apply truthy_nonempty|apply JS.trim_idempotent].
Qed.

Lemma NoDup_filter_list (A : Type) (p : A -> bool) (l : list A) :
  NoDup l -> NoDup (filter p l).
Proof.
  induction 1 as [|x l Hx Hl IH]; simpl; [constructor|].
  destruct (p x); [|exact IH]. constructor; [|exact IH].
  intros Hin. apply filter_In in Hin. now apply Hx.
Qed.

Lemma clean_tags_filter (p : string -> bool) (l : list string) :
  clean_tags l -> clean_tags (filter p l).
Proof.
  intros [Hnd Hall]. split; [now apply NoDup_filter_list|].
  rewrite Forall_forall in *. intros x Hx. apply filter_In in Hx.
  now apply Hall.
Qed.

Module AddActivityScreen.

Record state : Type := {
  handle : string;
  committedOn : string;
  tags : list string;
  newTag : string;
  isLoading : bool
}.

(** The first render: [committedOn] starts as the date part of
    [new Date().toISOString()]. *)
Definition initial (today : string) : state :=
  {| handle := ""; committedOn := today; tags := []; newTag := "";
     isLoading := false |}.

Definition setHandle (v : string) (s : state) : state :=
  {| handle := v; committedOn := committedOn s; tags := tags s;
     newTag := newTag s; isLoading := isLoading s |}.
Definition setCommittedOn (v : string) (s : state) : state :=
  {| handle := handle s; committedOn := v; tags := tags s;
     newTag := newTag s; isLoading := isLoading s |}.
Definition setTags (v : list string) (s : state) : state :=
  {| handle := handle s; committedOn := committedOn s; tags := v;
     newTag := newTag s; isLoading := isLoading s |}.
Definition setNewTag (v : string) (s : state) : state :=
  {| handle := handle s; committedOn := committedOn s; tags := tags s;
     newTag := v; isLoading := isLoading s |}.
Definition setIsLoading (v : bool) (s : state) : state :=
  {| handle := handle s; committedOn := committedOn s; tags := tags s;
     newTag := newTag s; isLoading := v |}.

Definition addTag (s : state) : state :=
  if JS.truthy (JS.trim (newTag s))
     && negb (JS.Array_includes (tags s) (JS.trim (newTag s)))
  then setNewTag "" (setTags (tags s ++ [JS.trim (newTag s)]) s)
  else s.

Definition removeTag (tagToRemove : string) (s : state) : state :=
  setTags (filter (fun tag => negb (String.eqb tag tagToRemove)) (tags s)) s.

Definition handleSave (r : Readings) (s : state) (w : World)
  : state * World * list alert :=
  if negb (JS.truthy (JS.trim (handle s))) then
    (s, w, [Alert "Error" "Please enter a handle for this activity"])
  else if negb (JS.truthy (committedOn s)) then
    (s, w, [Alert "Error" "Please select a date"])
  else
    let newActivity :=
      {| new_handle := JS.trim (handle s);
         new_committed_on := committedOn s;
         new_tags := tags s |} in
    match addActivity r newActivity w with
    | Returned _ w' =>
        (setIsLoading false (setIsLoading true s), w',
         [Alert_then_back "Success" "Activity logged successfully!"])
    | Thrown _ w' =>
        (setIsLoading false (setIsLoading true s), w',
         [Alert "Error" "Failed to save activity. Please try again."])
    end.

(** What the user does on the form. *)
Inductive action : Type :=
| TypeHandle (v : string)
| TypeCommittedOn (v : string)
| TypeNewTag (v : string)
| PressAddTag
| PressRemoveTag (tagToRemove : string).

Definition act (s : state) (a : action) : state :=
  match a with
  | TypeHandle v => setHandle v s
  | TypeCommittedOn v => setCommittedOn v s
  | TypeNewTag v => setNewTag v s
  | PressAddTag => addTag s
  | PressRemoveTag t => removeTag t s
  end.

End AddActivityScreen.

Lemma add_screen_act_clean (s : AddActivityScreen.state)
  (a : AddActivityScreen.action) :
  clean_tags (AddActivityScreen.tags s) ->
  clean_tags (AddActivityScreen.tags (AddActivityScreen.act s a)).
Proof.
  intros H. destruct a as [v|v|v| |t]; simpl; try exact H.
  - unfold AddActivityScreen.addTag.
    destruct (JS.truthy (JS.trim (AddActivityScreen.newTag s))) eqn:Ht;
      [|exact H].
    destruct (JS.Array_includes (AddActivityScreen.tags s)
                (JS.trim (AddActivityScreen.newTag s))) eqn:Hin; [exact H|].
    simpl. now apply clean_tags_snoc.
  - now apply clean_tags_filter.
Qed.

Lemma add_screen_acts_clean (actions : list AddActivityScreen.action) :
  forall s,
    clean_tags (AddActivityScreen.tags s) ->
    clean_tags (AddActivityScreen.tags (fold_left AddActivityScreen.act actions s)).
Proof.
  induction actions as [|a actions IH]; intros s Hs; simpl; [exact Hs|].
  apply IH. now apply add_screen_act_clean.
Qed.

Lemma addActivity_thrown_unchanged (r : Readings) (activity : NewActivity)
  (w w' : World) (e : error) :
  addActivity r activity w = Thrown e w' -> w' = w.
Proof.
  destruct w as [[[h|] [|]] [[rows|] i1 i2]]; unfold addActivity;
    unfold_store; simpl; try (intros H; inversion H; reflexivity).
  destruct (existsb (has_id (fresh_id r)) rows); simpl; intros H;
    [inversion H; reflexivity|discriminate H].
Qed.

Lemma addActivity_returned_value (r : Readings) (activity : NewActivity)
  (w w' : World) (x : Activity) :
  addActivity r activity w = Returned x w' ->
  x = {| id := fresh_id r;
         handle := new_handle activity;
         committed_on := new_committed_on activity;
         tags := new_tags activity;
         created_at := iso_now r;
         updated_at := iso_now r |}.
Proof.
  destruct w as [[[h|] [|]] [[rows|] i1 i2]]; unfold addActivity;
    unfold_store; simpl; try discriminate.
  destruct (existsb (has_id (fresh_id r)) rows); simpl; intros H;
    [discriminate H|inversion H; reflexivity].
Qed.

(** X10: whatever is typed and pressed on the add screen, starting from
    its first render, the tag list of the form never holds a tag twice,
    an empty tag, or a tag with white space at either end. *)
Theorem add_screen_tags_stay_clean (today : string)
  (actions : list AddActivityScreen.action) :
  clean_tags
    (AddActivityScreen.tags
       (fold_left AddActivityScreen.act actions (AddActivityScreen.initial today))).
Proof.
  apply add_screen_acts_clean. split; constructor.
Qed.

(** X11: saving from the add screen raises exactly one alert.  With a
    blank handle or an empty date nothing reaches the store.  An Error
    alert always means the world is unchanged, and a Success alert means
    [add] returned with the handle trimmed, which is then neither empty
    nor padded with white space. *)
Theorem add_screen_save_outcome (r : Readings) (s : AddActivityScreen.state)
  (w : World) :
  exists s' w' a,
    AddActivityScreen.handleSave r s w = (s', w', [a]) /\
    (JS.trim (AddActivityScreen.handle s) = EmptyString \/
     AddActivityScreen.committedOn s = EmptyString ->
     s' = s /\ w' = w /\ alert_title a = "Error") /\
    (alert_title a = "Error" -> w' = w) /\
    (alert_title a = "Success" ->
     AddActivityScreen.isLoading s' = false /\
     exists x,
       addActivity r
         {| new_handle := JS.trim (AddActivityScreen.handle s);
            new_committed_on := AddActivityScreen.committedOn s;
            new_tags := AddActivityScreen.tags s |} w = Returned x w' /\
       handle x <> EmptyString /\ JS.trim (handle x) = handle x /\
       committed_on x <> EmptyString /\ tags x = AddActivityScreen.tags s).
Proof.
  unfold AddActivityScreen.handleSave.
  destruct (JS.truthy (JS.trim (AddActivityScreen.handle s))) eqn:Hh; simpl.
  2:{ do 3 eexists. split; [reflexivity|]. simpl.
      repeat split; auto; discriminate. }
  destruct (JS.truthy (AddActivityScreen.committedOn s)) eqn:Hc; simpl.
  2:{ do 3 eexists. split; [reflexivity|]. simpl.
      repeat split; auto; discriminate. }
  apply truthy_nonempty in Hh, Hc.
  destruct (addActivity r _ w) as [x w'|e w'] eqn:Hadd.
  - do 3 eexists. split; [reflexivity|]. simpl. split; [|split].
    + intros [H|H]; contradiction.
    + discriminate.
    + intros _. split; [reflexivity|]. exists x. split; [reflexivity|].
      assert (Hx : handle x = JS.trim (AddActivityScreen.handle s) /\
                   committed_on x = AddActivityScreen.committedOn s /\
                   tags x = AddActivityScreen.tags s).
      { apply addActivity_returned_value in Hadd. subst x. simpl. auto. }
      destruct Hx as (-> & -> & ->).
      repeat split; auto. apply JS.trim_idempotent.
  - do 3 eexists. split; [reflexivity|]. simpl. split; [|split].
    + intros [H|H]; contradiction.
    + intros _. now apply addActivity_thrown_unchanged in Hadd.
    + discriminate.
Qed.

Definition quiet_start : AddActivityScreen.state :=
  AddActivityScreen.setHandle "  morning walk "
    (AddActivityScreen.initial "2024-01-01").

Lemma add_screen_save_outcome_witness :
  exists s' w' a,
    AddActivityScreen.handleSave noon quiet_start (ready_world three_days)
    = (s', w', [a]).
Proof.
  destruct (add_screen_save_outcome noon quiet_start (ready_world three_days))
    as (s' & w' & a & Hrun & _).
  now exists s', w', a.
Defined.

Module ActivityListScreen.

Record state : Type := {
  activities : list Activity;
  filteredActivities : list Activity;
  isLoading : bool;
  searchText : string;
  refreshing : bool
}.

Definition initial : state :=
  {| activities := []; filteredActivities := []; isLoading := true;
     searchText := ""; refreshing := false |}.

Definition setActivities (v : list Activity) (s : state) : state :=
  {| activities := v; filteredActivities := filteredActivities s;
     isLoading := isLoading s; searchText := searchText s;
     refreshing := refreshing s |}.
Definition setFilteredActivities (v : list Activity) (s : state) : state :=
  {| activities := activities s; filteredActivities := v;
     isLoading := isLoading s; searchText := searchText s;
     refreshing := refreshing s |}.
Definition setIsLoading (v : bool) (s : state) : state :=
  {| activities := activities s; filteredActivities := filteredActivities s;
     isLoading := v; searchText := searchText s; refreshing := refreshing s |}.
Definition setSearchText (v : string) (s : state) : state :=
  {| activities := activities s; filteredActivities := filteredActivities s;
     isLoading := isLoading s; searchText := v; refreshing := refreshing s |}.
Definition setRefreshing (v : bool) (s : state) : state :=
  {| activities := activities s; filteredActivities := filteredActivities s;
     isLoading := isLoading s; searchText := searchText s; refreshing := v |}.

Definition loadActivities (s : state) (w : World)
  : state * World * list alert :=
  match getActivities w with
  | Returned activitiesData w' =>
      (setIsLoading false
         (setFilteredActivities activitiesData
            (setActivities activitiesData (setIsLoading true s))),
       w', [])
  | Thrown _ w' => (setIsLoading false (setIsLoading true s), w', [])
  end.

Definition onRefresh (s : state) (w : World) : state * World * list alert :=
  let '(s', w', alerts) := loadActivities (setRefreshing true s) w in
  (setRefreshing false s', w', alerts).

(** The test of the search: the handle or some tag contains the text,
    letter case aside. *)
Definition matches (text : string) (activity : Activity) : bool :=
  JS.includes (JS.toLowerCase (handle activity)) (JS.toLowerCase text)
  || JS.Array_some
       (fun tag => JS.includes (JS.toLowerCase tag) (JS.toLowerCase text))
       (tags activity).

Definition filterActivities (text : string) (s : state) : state :=
  if negb (JS.truthy (JS.trim text)) then
    setFilteredActivities (activities s) (setSearchText text s)
  else
    setFilteredActivities (filter (matches text) (activities s))
      (setSearchText text s).

Definition confirmDelete (activityId : string) (s : state) (w : World)
  : state * World * list alert :=
  match deleteActivity activityId w with
  | Returned success w' =>
      if success then loadActivities s w'
      else (s, w', [Alert "Error" "Failed to delete activity"])
  | Thrown _ w' => (s, w', [Alert "Error" "Failed to delete activity"])
  end.

End ActivityListScreen.



Definition shown : ActivityListScreen.state :=
  {| ActivityListScreen.activities := map decode three_days;
     ActivityListScreen.filteredActivities := map decode three_days;
     ActivityListScreen.isLoading := false;
     ActivityListScreen.searchText := "";
     ActivityListScreen.refreshing := false |}.


(** X13: the search ignores letter case: two texts that agree once put
    in lower case show the same activities. *)
Theorem search_ignores_case (q1 q2 : string) (s : ActivityListScreen.state) :
  JS.toLowerCase q1 = JS.toLowerCase q2 ->
  ActivityListScreen.filteredActivities (ActivityListScreen.filterActivities q1 s)
  = ActivityListScreen.filteredActivities (ActivityListScreen.filterActivities q2 s).
Proof.
  intros E. unfold ActivityListScreen.filterActivities.
  rewrite <- (JS.trim_lower_truthy q1), <- (JS.trim_lower_truthy q2), E.
  destruct (JS.truthy (JS.trim (JS.toLowerCase q2))); simpl; [|reflexivity].
  apply filter_ext. intros a. unfold ActivityListScreen.matches. now rewrite E.
Qed.

Lemma search_ignores_case_witness :
  ActivityListScreen.filteredActivities
    (ActivityListScreen.filterActivities "Walk" shown)
  = ActivityListScreen.filteredActivities
      (ActivityListScreen.filterActivities "wALK" shown).
Proof.
  apply (@search_ignores_case "Walk" "wALK" shown). reflexivity.
Defined.

(** X14: confirming a deletion on the list screen, on a READY store:
    for an id no row has, an Error alert is raised and neither the
    screen nor the world changes; for a stored id no alert is raised,
    the rows of that id are gone, and the screen shows, in both of its
    lists, the former listing of the store without that id. *)
Theorem list_screen_delete (i : string) (s : ActivityListScreen.state)
  (w : World) (rows : list Row) :
  READY w -> stored w rows ->
  (find (has_id i) rows = None ->
   ActivityListScreen.confirmDelete i s w
   = (s, w, [Alert "Error" "Failed to delete activity"])) /\
  (find (has_id i) rows <> None ->
   exists s' w' before,
     ActivityListScreen.confirmDelete i s w = (s', w', []) /\
     stored w' (filter (fun r => negb (has_id i r)) rows) /\
     getActivities w = Returned before w /\
     ActivityListScreen.activities s' = filter (not_id i) before /\
     ActivityListScreen.filteredActivities s' = filter (not_id i) before /\
     ActivityListScreen.isLoading s' = false).
Proof.
  intros Hr Hs. unfold ActivityListScreen.confirmDelete.
  rewrite (deleteActivity_run i Hr Hs).
  set (rows' := filter (fun r => negb (has_id i r)) rows).
  assert (Hs' : stored (with_rows w rows') rows').
  { apply with_rows_stored. destruct Hs as [_ Hp].
    rewrite Forall_forall in *. intros x Hx. apply filter_In in Hx.
    now apply Hp. }
  split.
  - intros Hnone. apply find_none_existsb in Hnone.
    destruct (filter_none_id _ _ Hnone) as [H1 H2].
    unfold rows'. rewrite H1, H2. simpl.
    destruct (ready_shape Hr (proj1 Hs)) as (h & i1 & i2 & ->). reflexivity.
  - intros Hsome.
    assert (Hpos : Nat.ltb 0 (length (filter (has_id i) rows)) = true).
    { destruct (find (has_id i) rows) as [row|] eqn:Hfind; [|congruence].
      apply find_some in Hfind.
      assert (Hin : In row (filter (has_id i) rows)) by now apply filter_In.
      destruct (filter (has_id i) rows); [contradiction|reflexivity]. }
    rewrite Hpos. unfold ActivityListScreen.loadActivities.
    rewrite (getActivities_run (with_rows_READY _ Hr) Hs').
    do 3 eexists. split; [reflexivity|]. split; [exact Hs'|].
    split; [apply (getActivities_run Hr Hs)|]. simpl.
    assert (E : map decode (ORDER_BY_committed_on_created_at_DESC rows')
                = filter (not_id i)
                    (map decode (ORDER_BY_committed_on_created_at_DESC rows))).
    { unfold rows', ORDER_BY_committed_on_created_at_DESC.
      rewrite <- (filter_sort_by row_precedes row_precedes_total
                    row_precedes_trans).
      apply filter_map_decode. }
    rewrite E. auto.
Qed.

Lemma list_screen_delete_witness :
  ActivityListScreen.confirmDelete "nonexistent-id" shown (ready_world three_days)
  = (shown, ready_world three_days, [Alert "Error" "Failed to delete activity"]).
Proof.
  apply (proj1 (@list_screen_delete "nonexistent-id" shown
                  (ready_world three_days) three_days
                  (ready_world_READY three_days) three_days_stored)).
  reflexivity.
Defined.

Module ActivityDetailScreen.

Record state : Type := {
  activity : option Activity;
  isEditing : bool;
  editedHandle : string;
  editedCommittedOn : string;
  editedTags : list string;
  newTag : string;
  isLoading : bool;
  isSaving : bool
}.

Definition initial : state :=
  {| activity := None; isEditing := false; editedHandle := "";
     editedCommittedOn := ""; editedTags := []; newTag := "";
     isLoading := true; isSaving := false |}.

Definition setActivity (v : option Activity) (s : state) : state :=
  {| activity := v; isEditing := isEditing s; editedHandle := editedHandle s;
     editedCommittedOn := editedCommittedOn s; editedTags := editedTags s;
     newTag := newTag s; isLoading := isLoading s; isSaving := isSaving s |}.
Definition setIsEditing (v : bool) (s : state) : state :=
  {| activity := activity s; isEditing := v; editedHandle := editedHandle s;
     editedCommittedOn := editedCommittedOn s; editedTags := editedTags s;
     newTag := newTag s; isLoading := isLoading s; isSaving := isSaving s |}.
Definition setEditedHandle (v : string) (s : state) : state :=
  {| activity := activity s; isEditing := isEditing s; editedHandle := v;
     editedCommittedOn := editedCommittedOn s; editedTags := editedTags s;
     newTag := newTag s; isLoading := isLoading s; isSaving := isSaving s |}.
Definition setEditedCommittedOn (v : string) (s : state) : state :=
  {| activity := activity s; isEditing := isEditing s;
     editedHandle := editedHandle s; editedCommittedOn := v;
     editedTags := editedTags s; newTag := newTag s;
     isLoading := isLoading s; isSaving := isSaving s |}.
Definition setEditedTags (v : list string) (s : state) : state :=
  {| activity := activity s; isEditing := isEditing s;
     editedHandle := editedHandle s;
     editedCommittedOn := editedCommittedOn s; editedTags := v;
     newTag := newTag s; isLoading := isLoading s; isSaving := isSaving s |}.
Definition setNewTag (v : string) (s : state) : state :=
  {| activity := activity s; isEditing := isEditing s;
     editedHandle := editedHandle s;
     editedCommittedOn := editedCommittedOn s; editedTags := editedTags s;
     newTag := v; isLoading := isLoading s; isSaving := isSaving s |}.
Definition setIsLoading (v : bool) (s : state) : state :=
  {| activity := activity s; isEditing := isEditing s;
     editedHandle := editedHandle s;
     editedCommittedOn := editedCommittedOn s; editedTags := editedTags s;
     newTag := newTag s; isLoading := v; isSaving := isSaving s |}.
Definition setIsSaving (v : bool) (s : state) : state :=
  {| activity := activity s; isEditing := isEditing s;
     editedHandle := editedHandle s;
     editedCommittedOn := editedCommittedOn s; editedTags := editedTags s;
     newTag := newTag s; isLoading := isLoading s; isSaving := v |}.

Definition loadActivity (activityId : string) (s : state) (w : World)
  : state * World * list alert :=
  match getActivityById activityId w with
  | Returned (Some activityData) w' =>
      (setIsLoading false
         (setEditedTags (tags activityData)
            (setEditedCommittedOn (committed_on activityData)
               (setEditedHandle (handle activityData)
                  (setActivity (Some activityData) (setIsLoading true s))))),
       w', [])
  | Returned None w' =>
      (setIsLoading false (setIsLoading true s), w',
       [Alert_then_back "Error" "Activity not found"])
  | Thrown _ w' =>
      (setIsLoading false (setIsLoading true s), w',
       [Alert "Error" "Failed to load activity"])
  end.

Definition handleEdit (s : state) : state := setIsEditing true s.

Definition handleCancel (s : state) : state :=
  match activity s with
  | Some a =>
      setIsEditing false
        (setNewTag ""
           (setEditedTags (tags a)
              (setEditedCommittedOn (committed_on a)
                 (setEditedHandle (handle a) s))))
  | None => setIsEditing false s
  end.

Definition handleSave (r : Readings) (activityId : string) (s : state)
  (w : World) : state * World * list alert :=
  if negb (JS.truthy (JS.trim (editedHandle s))) then
    (s, w, [Alert "Error" "Please enter a handle for this activity"])
  else if negb (JS.truthy (editedCommittedOn s)) then
    (s, w, [Alert "Error" "Please select a date"])
  else
    let updates :=
      {| upd_handle := Some (JS.trim (editedHandle s));
         upd_committed_on := Some (editedCommittedOn s);
         upd_tags := Some (editedTags s) |} in
    match updateActivity r activityId updates w with
    | Returned (Some updatedActivity) w' =>
        (setIsSaving false
           (setIsEditing false
              (setActivity (Some updatedActivity) (setIsSaving true s))),
         w', [Alert "Success" "Activity updated successfully!"])
    | Returned None w' =>
        (setIsSaving false (setIsSaving true s), w',
         [Alert "Error" "Failed to update activity"])
    | Thrown _ w' =>
        (setIsSaving false (setIsSaving true s), w',
         [Alert "Error" "Failed to update activity"])
    end.

Definition confirmDelete (activityId : string) (s : state) (w : World)
  : state * World * list alert :=
  match deleteActivity activityId w with
  | Returned success w' =>
      if success then
        (s, w', [Alert_then_back "Success" "Activity deleted successfully"])
      else (s, w', [Alert "Error" "Failed to delete activity"])
  | Thrown _ w' => (s, w', [Alert "Error" "Failed to delete activity"])
  end.

Definition addTag (s : state) : state :=
  if JS.truthy (JS.trim (newTag s))
     && negb (JS.Array_includes (editedTags s) (JS.trim (newTag s)))
  then setNewTag "" (setEditedTags (editedTags s ++ [JS.trim (newTag s)]) s)
  else s.

Definition removeTag (tagToRemove : string) (s : state) : state :=
  setEditedTags
    (filter (fun tag => negb (String.eqb tag tagToRemove)) (editedTags s)) s.

End ActivityDetailScreen.

(** The activity the detail screen writes for the edited fields. *)
Definition edited (row : Row) (s : ActivityDetailScreen.state) (now : string)
  : Activity :=
  {| id := row_id row;
     handle := JS.trim (ActivityDetailScreen.editedHandle s);
     committed_on := ActivityDetailScreen.editedCommittedOn s;
     tags := ActivityDetailScreen.editedTags s;
     created_at := row_created_at row;
     updated_at := now |}.

Definition saved (row : Row) (s : ActivityDetailScreen.state) (now : string)
  : ActivityDetailScreen.state :=
  ActivityDetailScreen.setIsSaving false
    (ActivityDetailScreen.setIsEditing false
       (ActivityDetailScreen.setActivity (Some (edited row s now))
          (ActivityDetailScreen.setIsSaving true s))).

Lemma detail_save_run (r : Readings) (i : string)
  (s : ActivityDetailScreen.state) (w : World) (rows : list Row) (row : Row) :
  READY w -> stored w rows -> find (has_id i) rows = Some row ->
  JS.trim (ActivityDetailScreen.editedHandle s) <> EmptyString ->
  ActivityDetailScreen.editedCommittedOn s <> EmptyString ->
  ActivityDetailScreen.handleSave r i s w
  = (saved row s (iso_now r),
     with_rows w (map (rewritten (edited row s (iso_now r)) i) rows),
     [Alert "Success" "Activity updated successfully!"]) /\
  getActivityById i
    (with_rows w (map (rewritten (edited row s (iso_now r)) i) rows))
  = Returned (Some (edited row s (iso_now r)))
      (with_rows w (map (rewritten (edited row s (iso_now r)) i) rows)).
Proof.
  intros Hr Hs Hfind Hh Hc. apply truthy_nonempty in Hh, Hc.
  unfold ActivityDetailScreen.handleSave. rewrite Hh, Hc. simpl.
  rewrite (@updateActivity_run w rows r i _ row Hr Hs Hfind).
  split; [reflexivity|].
  apply (@update_then_getById w rows r i
           {| upd_handle := Some (JS.trim (ActivityDetailScreen.editedHandle s));
              upd_committed_on := Some (ActivityDetailScreen.editedCommittedOn s);
              upd_tags := Some (ActivityDetailScreen.editedTags s) |}
           row Hr Hs Hfind).
Qed.

(** X15: saving on the detail screen, on a READY store, with a handle
    that is not blank and a date that is not empty: for a stored id the
    Success alert is raised, editing ends, and the activity shown is the
    one [getById] now reads back, made of the trimmed handle, the date
    and the tags of the form, the old id and created_at, and the time of
    the save; for an id that is gone an Error alert is raised and the
    world is unchanged. *)
Theorem detail_screen_save (r : Readings) (i : string)
  (s : ActivityDetailScreen.state) (w : World) (rows : list Row) :
  READY w -> stored w rows ->
  JS.trim (ActivityDetailScreen.editedHandle s) <> EmptyString ->
  ActivityDetailScreen.editedCommittedOn s <> EmptyString ->
  (forall row, find (has_id i) rows = Some row ->
     exists s' w',
       ActivityDetailScreen.handleSave r i s w
       = (s', w', [Alert "Success" "Activity updated successfully!"]) /\
       ActivityDetailScreen.activity s' = Some (edited row s (iso_now r)) /\
       ActivityDetailScreen.isEditing s' = false /\
       ActivityDetailScreen.isSaving s' = false /\
       getActivityById i w' = Returned (Some (edited row s (iso_now r))) w') /\
  (find (has_id i) rows = None ->
   exists s',
     ActivityDetailScreen.handleSave r i s w
     = (s', w, [Alert "Error" "Failed to update activity"]) /\
     ActivityDetailScreen.activity s' = ActivityDetailScreen.activity s /\
     ActivityDetailScreen.isEditing s' = ActivityDetailScreen.isEditing s).
Proof.
  intros Hr Hs Hh Hc. split.
  - intros row Hfind.
    destruct (@detail_save_run r i s w rows row Hr Hs Hfind Hh Hc)
      as [Hsave Hget].
    do 2 eexists. split; [exact Hsave|]. repeat split. exact Hget.
  - intros Hnone. apply truthy_nonempty in Hh, Hc.
    unfold ActivityDetailScreen.handleSave. rewrite Hh, Hc. simpl.
    rewrite (@updateActivity_absent w rows r i _ Hr Hs Hnone).
    eexists. split; [reflexivity|]. split; reflexivity.
Qed.

Definition editing_walk : ActivityDetailScreen.state :=
  {| ActivityDetailScreen.activity := None;
     ActivityDetailScreen.isEditing := true;
     ActivityDetailScreen.editedHandle := " stroll ";
     ActivityDetailScreen.editedCommittedOn := "2024-01-04";
     ActivityDetailScreen.editedTags := ["a"];
     ActivityDetailScreen.newTag := "";
     ActivityDetailScreen.isLoading := false;
     ActivityDetailScreen.isSaving := false |}.

Lemma detail_screen_save_witness :
  exists s',
    ActivityDetailScreen.handleSave noon "gone" editing_walk (ready_world three_days)
    = (s', ready_world three_days, [Alert "Error" "Failed to update activity"]).
Proof.
  destruct (proj2 (@detail_screen_save noon "gone" editing_walk
                     (ready_world three_days) three_days
                     (ready_world_READY three_days) three_days_stored
                     ltac:(discriminate) ltac:(discriminate)) eq_refl)
    as (s' & Hrun & _).
  now exists s'.
Defined.

Definition loaded (a : Activity) : ActivityDetailScreen.state :=
  ActivityDetailScreen.setIsLoading false
    (ActivityDetailScreen.setEditedTags (tags a)
       (ActivityDetailScreen.setEditedCommittedOn (committed_on a)
          (ActivityDetailScreen.setEditedHandle (handle a)
             (ActivityDetailScreen.setActivity (Some a)
                (ActivityDetailScreen.setIsLoading true
                   ActivityDetailScreen.initial))))).

(** X16: opening an activity on the detail screen and saving it without
    touching the form changes nothing but updated_at, provided its
    stored handle is neither blank nor padded with white space and its
    date is not empty: every other field reads back as it was stored. *)
Theorem open_and_save_keeps_fields (r : Readings) (i : string) (w : World)
  (rows : list Row) (row : Row) :
  READY w -> stored w rows -> find (has_id i) rows = Some row ->
  row_handle row <> EmptyString -> JS.trim (row_handle row) = row_handle row ->
  row_committed_on row <> EmptyString ->
  exists s2 w2 u,
    ActivityDetailScreen.loadActivity i ActivityDetailScreen.initial w
    = (loaded (decode row), w, []) /\
    ActivityDetailScreen.handleSave r i (loaded (decode row)) w
    = (s2, w2, [Alert "Success" "Activity updated successfully!"]) /\
    getActivityById i w2 = Returned (Some u) w2 /\
    id u = id (decode row) /\ handle u = handle (decode row) /\
    committed_on u = committed_on (decode row) /\
    tags u = tags (decode row) /\ created_at u = created_at (decode row) /\
    updated_at u = iso_now r.
Proof.
  intros Hr Hs Hfind Hne Htrim Hdate.
  assert (Hh : JS.trim (ActivityDetailScreen.editedHandle (loaded (decode row)))
               <> EmptyString) by (simpl; now rewrite Htrim).
  assert (Hc : ActivityDetailScreen.editedCommittedOn (loaded (decode row))
               <> EmptyString) by exact Hdate.
  destruct (@detail_save_run r i (loaded (decode row)) w rows row
              Hr Hs Hfind Hh Hc) as [Hsave Hget].
  do 3 eexists. split.
  - unfold ActivityDetailScreen.loadActivity.
    rewrite (getActivityById_run i Hr Hs), Hfind. reflexivity.
  - split; [exact Hsave|]. split; [exact Hget|].
    simpl. rewrite Htrim. repeat split.
Qed.

Lemma open_and_save_keeps_fields_witness :
  exists s2 w2 u,
    ActivityDetailScreen.handleSave one_past_noon "1a"
      (loaded (decode (row_of "1a" "walk" "2024-01-01" ["a"; "b"]
                         "2024-01-05T08:00:00.000Z")))
      (ready_world three_days)
    = (s2, w2, [Alert "Success" "Activity updated successfully!"]) /\
    getActivityById "1a" w2 = Returned (Some u) w2 /\
    handle u = "walk" /\ updated_at u = "2024-01-01T12:00:00.001Z".
Proof.
  destruct (@open_and_save_keeps_fields one_past_noon "1a"
              (ready_world three_days) three_days
              (row_of "1a" "walk" "2024-01-01" ["a"; "b"]
                 "2024-01-05T08:00:00.000Z")
              (ready_world_READY three_days) three_days_stored eq_refl
              ltac:(discriminate) eq_refl ltac:(discriminate))
    as (s2 & w2 & u & _ & Hsave & Hget & _ & Hh & _ & _ & _ & Hu).
  exists s2, w2, u. repeat split; assumption.
Defined.

(** ** What the screens let into the table *)

(** What the user does on the form of the detail screen. *)
Inductive detail_action : Type :=
| EditHandle (v : string)
| EditCommittedOn (v : string)
| EditNewTag (v : string)
| EditAddTag
| EditRemoveTag (tagToRemove : string)
| PressEdit
| PressCancel.

Definition detail_act (s : ActivityDetailScreen.state) (a : detail_action)
  : ActivityDetailScreen.state :=
  match a with
  | EditHandle v => ActivityDetailScreen.setEditedHandle v s
  | EditCommittedOn v => ActivityDetailScreen.setEditedCommittedOn v s
  | EditNewTag v => ActivityDetailScreen.setNewTag v s
  | EditAddTag => ActivityDetailScreen.addTag s
  | EditRemoveTag t => ActivityDetailScreen.removeTag t s
  | PressEdit => ActivityDetailScreen.handleEdit s
  | PressCancel => ActivityDetailScreen.handleCancel s
  end.

(** A visit of a screen that ends with a press that reaches the store. *)
Inductive visit : Type :=
| Launch (env : InitEnv)
| SaveNew (r : Readings) (today : string)
    (actions : list AddActivityScreen.action)
| SaveEdit (r : Readings) (activityId : string) (actions : list detail_action)
| DeleteOnList (activityId : string)
| DeleteOnDetail (activityId : string).

Definition world_after_visit (v : visit) (w : World) : World :=
  match v with
  | Launch env => world_of (initialize env w)
  | SaveNew r today actions =>
      snd (fst (AddActivityScreen.handleSave r
                  (fold_left AddActivityScreen.act actions
                     (AddActivityScreen.initial today)) w))
  | SaveEdit r i actions =>
      let '(s1, w1, _) :=
        ActivityDetailScreen.loadActivity i ActivityDetailScreen.initial w in
      snd (fst (ActivityDetailScreen.handleSave r i
                  (fold_left detail_act actions s1) w1))
  | DeleteOnList i =>
      snd (fst (ActivityListScreen.confirmDelete i ActivityListScreen.initial w))
  | DeleteOnDetail i =>
      snd (fst (ActivityDetailScreen.confirmDelete i
                  ActivityDetailScreen.initial w))
  end.

(** A row as the forms produce it. *)
Definition row_entered (r : Row) : Prop :=
  row_handle r <> EmptyString /\ JS.trim (row_handle r) = row_handle r /\
  row_committed_on r <> EmptyString /\ clean_tags (tags (decode r)).

Definition entered (w : World) : Prop :=
  match activities (file w) with
  | Some rows => Forall row_entered rows
  | None => True
  end.

Definition detail_state_clean (s : ActivityDetailScreen.state) : Prop :=
  clean_tags (ActivityDetailScreen.editedTags s) /\
  forall a, ActivityDetailScreen.activity s = Some a -> clean_tags (tags a).

Lemma detail_act_clean (s : ActivityDetailScreen.state) (a : detail_action) :
  detail_state_clean s -> detail_state_clean (detail_act s a).
Proof.
  intros [Ht Ha]. destruct a as [v|v|v| |t| | ]; simpl;
    try (split; [exact Ht|exact Ha]).
  - unfold ActivityDetailScreen.addTag.
    destruct (JS.truthy (JS.trim (ActivityDetailScreen.newTag s))) eqn:Hn;
      [|split; assumption].
    destruct (JS.Array_includes (ActivityDetailScreen.editedTags s)
                (JS.trim (ActivityDetailScreen.newTag s))) eqn:Hin;
      [split; assumption|].
    simpl. split; [now apply clean_tags_snoc|exact Ha].
  - split; [now apply clean_tags_filter|exact Ha].
  - unfold ActivityDetailScreen.handleCancel.
    destruct (ActivityDetailScreen.activity s) as [x|] eqn:E; simpl.
    + split; [now apply Ha|]. intros a H. simpl in H. apply Ha. congruence.
    + split; [exact Ht|]. intros a H. simpl in H. congruence.
Qed.

Lemma detail_acts_clean (actions : list detail_action) :
  forall s, detail_state_clean s ->
            detail_state_clean (fold_left detail_act actions s).
Proof.
  induction actions as [|a actions IH]; intros s Hs; simpl; [exact Hs|].
  apply IH. now apply detail_act_clean.
Qed.

Lemma entered_with_rows (w : World) (rows : list Row) :
  Forall row_entered rows -> entered (with_rows w rows).
Proof. intros H. exact H. Qed.

Lemma entered_rows (w : World) (rows : list Row) :
  entered w -> activities (file w) = Some rows -> Forall row_entered rows.
Proof. unfold entered. intros H E. now rewrite E in H. Qed.

Lemma filter_entered (p : Row -> bool) (rows : list Row) :
  Forall row_entered rows -> Forall row_entered (filter p rows).
Proof.
  rewrite !Forall_forall. intros H x Hx. apply filter_In in Hx. now apply H.
Qed.

Lemma delete_world (i : string) (w : World) :
  consistent w -> entered w ->
  consistent (world_of (deleteActivity i w)) /\
  entered (world_of (deleteActivity i w)).
Proof.
  intros Hc He. split; [apply (@world_after_consistent (Delete i) w Hc)|].
  destruct (READY_dec w) as [Hr|Hn].
  - destruct (consistent_ready_stored Hc Hr) as (rows & Hs).
    rewrite (deleteActivity_run i Hr Hs). apply entered_with_rows.
    apply filter_entered. now apply entered_rows with w; [|apply Hs].
  - unfold deleteActivity. rewrite (guard_fails _ Hn). exact He.
Qed.

Lemma getActivities_world (w : World) :
  consistent w -> world_of (getActivities w) = w.
Proof.
  intros Hc. destruct (READY_dec w) as [Hr|Hn].
  - destruct (consistent_ready_stored Hc Hr) as (rows & Hs).
    now rewrite (getActivities_run Hr Hs).
  - unfold getActivities. now rewrite (guard_fails _ Hn).
Qed.

Lemma add_world_entered (r : Readings) (a : NewActivity) (w : World) :
  consistent w -> entered w ->
  new_handle a <> EmptyString -> JS.trim (new_handle a) = new_handle a ->
  new_committed_on a <> EmptyString -> clean_tags (new_tags a) ->
  entered (world_of (addActivity r a w)).
Proof.
  intros Hc He H1 H2 H3 H4. destruct (READY_dec w) as [Hr|Hn].
  - destruct (consistent_ready_stored Hc Hr) as (rows & Hs).
    rewrite (addActivity_run r a Hr Hs).
    destruct (existsb (has_id (fresh_id r)) rows); [exact He|].
    apply entered_with_rows. apply Forall_app. split.
    + now apply entered_rows with w; [|apply Hs].
    + constructor; [|constructor]. unfold row_entered, decode. simpl.
      now rewrite JSON.parse_stringify.
  - unfold addActivity. rewrite (guard_fails _ Hn). exact He.
Qed.

Lemma update_world_entered (r : Readings) (i h c : string) (t : list string)
  (w : World) :
  consistent w -> entered w ->
  h <> EmptyString -> JS.trim h = h -> c <> EmptyString -> clean_tags t ->
  entered (world_of (updateActivity r i
                       {| upd_handle := Some h; upd_committed_on := Some c;
                          upd_tags := Some t |} w)).
Proof.
  intros Hc He H1 H2 H3 H4. destruct (READY_dec w) as [Hr|Hn].
  - destruct (consistent_ready_stored Hc Hr) as (rows & Hs).
    destruct (find (has_id i) rows) as [row|] eqn:Hfind.
    + rewrite (@updateActivity_run w rows r i _ row Hr Hs Hfind).
      apply entered_with_rows. apply Forall_map.
      eapply Forall_impl; [|apply (@entered_rows w rows He (proj1 Hs))].
      intros x Hx. unfold rewritten, set_columns.
      destruct (has_id i x); [|exact Hx].
      unfold row_entered, decode. simpl. now rewrite JSON.parse_stringify.
    + now rewrite (@updateActivity_absent w rows r i _ Hr Hs Hfind).
  - unfold updateActivity. rewrite (guard_fails _ Hn). exact He.
Qed.

Lemma loadActivity_clean (i : string) (w : World) :
  consistent w -> entered w ->
  exists s1 al,
    ActivityDetailScreen.loadActivity i ActivityDetailScreen.initial w
    = (s1, w, al) /\ detail_state_clean s1.
Proof.
  intros Hc He. unfold ActivityDetailScreen.loadActivity.
  assert (Hinit : forall b, detail_state_clean
            (ActivityDetailScreen.setIsLoading b
               (ActivityDetailScreen.setIsLoading true
                  ActivityDetailScreen.initial))).
  { intros b. split; simpl; [split; constructor|discriminate]. }
  destruct (READY_dec w) as [Hr|Hn].
  - destruct (consistent_ready_stored Hc Hr) as (rows & Hs).
    rewrite (getActivityById_run i Hr Hs).
    destruct (find (has_id i) rows) as [row|] eqn:Hfind; simpl.
    + do 2 eexists. split; [reflexivity|].
      assert (Hrow : row_entered row).
      { pose proof (@entered_rows w rows He (proj1 Hs)) as Hall.
        rewrite Forall_forall in Hall. apply Hall.
        now apply find_has_id in Hfind. }
      destruct Hrow as (_ & _ & _ & Hclean).
      split; simpl; [exact Hclean|]. intros a E. inversion E; subst. exact Hclean.
    + do 2 eexists. split; [reflexivity|]. apply Hinit.
  - unfold getActivityById. rewrite (guard_fails _ Hn).
    do 2 eexists. split; [reflexivity|]. apply Hinit.
Qed.

(** X17: the screens only let well-formed rows into the table: when
    every stored row has a handle that is neither empty nor padded with
    white space, a date that is not empty, and tags without duplicates,
    empty tags or padded tags, the same holds after launching the app,
    after saving from the add screen or from the detail screen whatever
    was typed and pressed on the form before, and after a deletion. *)
Theorem screens_keep_rows_entered (v : visit) (w : World) :
  consistent w -> entered w ->
  consistent (world_after_visit v w) /\ entered (world_after_visit v w).
Proof.
  intros Hc He. destruct v as [env|r today actions|r i actions|i|i]; simpl.
  - split; [now apply initialize_consistent|].
    unfold entered in *.
    destruct (initialize_table env w) as [E|[_ E]]; rewrite E;
      [exact He|constructor].
  - set (s := fold_left AddActivityScreen.act actions
                (AddActivityScreen.initial today)).
    assert (Hclean : clean_tags (AddActivityScreen.tags s)).
    { apply add_screen_acts_clean. split; constructor. }
    unfold AddActivityScreen.handleSave.
    destruct (JS.truthy (JS.trim (AddActivityScreen.handle s))) eqn:Hh;
      simpl; [|now split].
    destruct (JS.truthy (AddActivityScreen.committedOn s)) eqn:Hd;
      simpl; [|now split].
    apply truthy_nonempty in Hh, Hd.
    set (na := {| new_handle := JS.trim (AddActivityScreen.handle s);
                  new_committed_on := AddActivityScreen.committedOn s;
                  new_tags := AddActivityScreen.tags s |}).
    pose proof (@world_after_consistent (Add r na) w Hc) as Hc'.
    pose proof (@add_world_entered r na w Hc He Hh
                  (JS.trim_idempotent _) Hd Hclean) as He'.
    simpl in Hc'. destruct (addActivity r na w); simpl in *; now split.
  - destruct (@loadActivity_clean i w Hc He) as (s1 & al & Hload & Hs1).
    rewrite Hload.
    set (s := fold_left detail_act actions s1).
    assert (Hclean : clean_tags (ActivityDetailScreen.editedTags s)).
    { apply (@detail_acts_clean actions s1 Hs1). }
    unfold ActivityDetailScreen.handleSave.
    destruct (JS.truthy (JS.trim (ActivityDetailScreen.editedHandle s))) eqn:Hh;
      simpl; [|now split].
    destruct (JS.truthy (ActivityDetailScreen.editedCommittedOn s)) eqn:Hd;
      simpl; [|now split].
    apply truthy_nonempty in Hh, Hd.
    set (up := {| upd_handle := Some (JS.trim (ActivityDetailScreen.editedHandle s));
                  upd_committed_on := Some (ActivityDetailScreen.editedCommittedOn s);
                  upd_tags := Some (ActivityDetailScreen.editedTags s) |}).
    pose proof (@world_after_consistent (Update r i up) w Hc) as Hc'.
    pose proof (@update_world_entered r i _ _ _ w Hc He Hh
                  (JS.trim_idempotent _) Hd Hclean) as He'.
    fold up in He'. simpl in Hc'.
    destruct (updateActivity r i up w) as [[u|] w'|e w']; simpl in *; now split.
  - destruct (@delete_world i w Hc He) as [Hc' He'].
    unfold ActivityListScreen.confirmDelete.
    destruct (deleteActivity i w) as [[|] w'|e w']; simpl in *;
      try now split.
    unfold ActivityListScreen.loadActivities.
    pose proof (@getActivities_world w' Hc') as Hw.
    destruct (getActivities w') as [l w''|e w'']; simpl in *; subst w'';
      now split.
  - destruct (@delete_world i w Hc He) as [Hc' He'].
    unfold ActivityDetailScreen.confirmDelete.
    destruct (deleteActivity i w) as [[|] w'|e w']; simpl in *; now split.
Qed.

Lemma three_days_entered : entered (ready_world three_days).
Proof.
  unfold entered. simpl.
  repeat (constructor;
          [unfold row_entered, clean_tags; simpl;
           repeat split; try discriminate; try reflexivity;
           repeat (constructor; [simpl; intuition discriminate|]);
           try constructor; repeat split; try discriminate; try reflexivity|]).
  constructor.
Defined.

Lemma screens_keep_rows_entered_witness :
  entered (world_after_visit
             (SaveNew noon "2024-01-01"
                [AddActivityScreen.TypeHandle " run ";
                 AddActivityScreen.TypeNewTag " a ";
                 AddActivityScreen.PressAddTag])
             (ready_world three_days)).
Proof.
  apply (proj2 (@screens_keep_rows_entered
                  (SaveNew noon "2024-01-01"
                     [AddActivityScreen.TypeHandle " run ";
                      AddActivityScreen.TypeNewTag " a ";
                      AddActivityScreen.PressAddTag])
                  (ready_world three_days)
                  three_days_consistent three_days_entered)).
Defined.

(** ** Launching the application ([App.js]) *)

Lemma testDatabase_returns (w : World) :
  exists b, testDatabase w = Returned b w.
Proof.
  destruct w as [[[h|] [|]] f]; unfold testDatabase; unfold_store; simpl;
    eexists; reflexivity.
Qed.

Module App.

Section Messages.

(** The texts the engine puts in the TypeError of a call through null
    and in the SyntaxError of [JSON.parse]. *)
Variable TypeError_message : string.
Variable SyntaxError_message : string.

(** [error.message]. *)
Definition message (e : error) : string :=
  match e with
  | NotInitialized =>
      "Database not initialized. Please wait for initialization to complete."
  | OpenedNull => "Failed to open database - db is null"
  | DatabaseNotOpen => "Database not open"
  | NullDereference => TypeError_message
  | SyntaxError => SyntaxError_message
  | SQLiteError msg => msg
  end.

Record state : Type := {
  isDbInitialized : bool;
  dbError : option string
}.

Definition initial : state := {| isDbInitialized := false; dbError := None |}.

Definition setIsDbInitialized (v : bool) (s : state) : state :=
  {| isDbInitialized := v; dbError := dbError s |}.
Definition setDbError (v : string) (s : state) : state :=
  {| isDbInitialized := isDbInitialized s; dbError := Some v |}.

(** [error.message || 'Unknown database error']. *)
Definition message_or_unknown (e : error) : string :=
  if JS.truthy (message e) then message e else "Unknown database error".

Definition initializeDatabase (env : InitEnv) (s : state) (w : World)
  : state * World :=
  match initialize env w with
  | Returned _ w1 =>
      match testDatabase w1 with
      | Returned _ w2 => (setIsDbInitialized true s, w2)
      | Thrown e w2 => (setDbError (message_or_unknown e) s, w2)
      end
  | Thrown e w1 => (setDbError (message_or_unknown e) s, w1)
  end.

(** What [App] renders. *)
Inductive view : Type :=
| ErrorView (text : string)
| LoadingView
| Navigation.

Definition render (s : state) : view :=
  match dbError s with
  | Some text =>
      if JS.truthy text then ErrorView text
      else if negb (isDbInitialized s) then LoadingView else Navigation
  | None => if negb (isDbInitialized s) then LoadingView else Navigation
  end.

End Messages.

End App.

(** X18: once the launch effect of [App] has run, the loading view is
    gone for good: either the navigation is rendered and the store is
    READY, or the error view is rendered with a text that is not empty
    and the store is UNINITIALIZED.  The navigation is rendered exactly
    when [initialize] met no failure or the store was READY already. *)
Theorem launch_shows_navigation_or_error (tm sm : string) (env : InitEnv)
  (w : World) :
  exists s' w',
    App.initializeDatabase tm sm env App.initial w = (s', w') /\
    ((App.render s' = App.Navigation /\ READY w' /\
      (READY w \/ first_failure env = None)) \/
     (exists text,
        App.render s' = App.ErrorView text /\ text <> EmptyString /\
        UNINITIALIZED w' /\ ~ READY w /\ first_failure env <> None)).
Proof.
  unfold App.initializeDatabase.
  assert (Htext : forall e, JS.truthy (App.message_or_unknown tm sm e) = true).
  { intros e. unfold App.message_or_unknown.
    destruct (JS.truthy (App.message tm sm e)) eqn:E; [exact E|reflexivity]. }
  destruct (READY_dec w) as [Hr|Hn].
  - rewrite (initialize_ready env Hr).
    destruct (testDatabase_returns w) as (b & ->).
    do 2 eexists. split; [reflexivity|]. left.
    split; [reflexivity|]. split; [exact Hr|now left].
  - pose proof (initialize_not_ready env Hn) as Hi.
    destruct (first_failure env) as [e|] eqn:Hf.
    + destruct Hi as (w' & -> & Hu).
      do 2 eexists. split; [reflexivity|]. right.
      exists (App.message_or_unknown tm sm e). unfold App.render. simpl.
      rewrite Htext. split; [reflexivity|].
      split; [apply truthy_nonempty; apply Htext|].
      split; [exact Hu|]. split; [exact Hn|discriminate].
    + destruct Hi as (w' & -> & Hr' & _).
      destruct (testDatabase_returns w') as (b & ->).
      do 2 eexists. split; [reflexivity|]. left.
      split; [reflexivity|]. split; [exact Hr'|now right].
Qed.

(** ** Tag statistics ([StatsScreen.loadStats]) *)

Module StatsScreen.

Record TagStats : Type := { tag : string; count : nat }.

(** The own properties of [tagCounts], in creation order. *)
Definition object : Type := list (string * nat).

Fixpoint own (o : object) (key : string) : option nat :=
  match o with
  | [] => None
  | (k, n) :: o' => if String.eqb k key then Some n else own o' key
  end.

Fixpoint assign (o : object) (key : string) (v : nat) : object :=
  match o with
  | [] => [(key, v)]
  | (k, n) :: o' =>
      if String.eqb k key then (k, v) :: o' else (k, n) :: assign o' key v
  end.

Section Prototype.

(** Which property names the prototype of an object literal carries
    ([constructor], [toString], ...).  Reading [tagCounts[tag]] for such
    a name before the tag has a count yields that property; arithmetic on
    it is left to the engine, and the model stops there. *)
Variable inherited : string -> bool.

(** [tagCounts[tag] = (tagCounts[tag] || 0) + 1]. *)
Definition increment (o : object) (tag : string) : option object :=
  match own o tag with
  | Some n => Some (assign o tag (n + 1))
  | None => if inherited tag then None else Some (assign o tag (0 + 1))
  end.

Fixpoint forEach_tag (tags : list string) (o : object) : option object :=
  match tags with
  | [] => Some o
  | t :: rest =>
      match increment o t with
      | Some o' => forEach_tag rest o'
      | None => None
      end
  end.

Fixpoint forEach_activity (activitiesData : list Activity) (o : object)
  : option object :=
  match activitiesData with
  | [] => Some o
  | a :: rest =>
      match forEach_tag (tags a) o with
      | Some o' => forEach_activity rest o'
      | None => None
      end
  end.

End Prototype.

(** The value of a key that is an array index: a canonical decimal
    numeral below 2^32 - 1. *)
Fixpoint digits_value (s : string) (acc : N) : option N :=
  match s with
  | EmptyString => Some acc
  | String c s' =>
      let n := N_of_ascii c in
      if ((48 <=? n) && (n <=? 57))%N
      then digits_value s' (10 * acc + (n - 48))%N
      else None
  end.

Definition array_index (key : string) : option N :=
  match key with
  | EmptyString => None
  | _ =>
      match digits_value key 0%N with
      | Some n =>
          if String.eqb (NilZero.string_of_uint (N.to_uint n)) key
             && (n <? 4294967295)%N
          then Some n else None
      | None => None
      end
  end.

Definition is_index (e : string * nat) : bool :=
  match array_index (fst e) with Some _ => true | None => false end.

Definition index_le (a b : string * nat) : bool :=
  match array_index (fst a), array_index (fst b) with
  | Some x, Some y => (x <=? y)%N
  | _, _ => true
  end.

(** [Object.entries(tagCounts)]: array indices in ascending order, then
    the other keys in creation order. *)
Definition Object_entries (o : object) : list (string * nat) :=
  sort_by index_le (filter is_index o)
  ++ filter (fun e => negb (is_index e)) o.

Definition to_stat (e : string * nat) : TagStats :=
  {| tag := fst e; count := snd e |}.

(** [(a, b) => b.count - a.count] is negative or zero. *)
Definition by_count_desc (a b : TagStats) : bool := Nat.leb (count b) (count a).

Definition tagStatsArray (o : object) : list TagStats :=
  sort_by by_count_desc (map to_stat (Object_entries o)).

Definition loadStats_tagStats (inherited : string -> bool)
  (activitiesData : list Activity) : option (list TagStats) :=
  match forEach_activity inherited activitiesData [] with
  | Some o => Some (tagStatsArray o)
  | None => None
  end.

End StatsScreen.

Example tag_stats_three_days :
  StatsScreen.loadStats_tagStats (fun t => String.eqb t "constructor")
    (map decode three_days)
  = Some [ {| StatsScreen.tag := "b"; StatsScreen.count := 2 |};
           {| StatsScreen.tag := "a"; StatsScreen.count := 1 |};
           {| StatsScreen.tag := "c"; StatsScreen.count := 1 |} ].
Proof. reflexivity. Qed.

(** How often a tag occurs in a sequence of tags. *)
Definition occurrences (t : string) (l : list string) : nat :=
  length (filter (String.eqb t) l).

Lemma occurrences_app (t : string) (l1 l2 : list string) :
  occurrences t (l1 ++ l2) = occurrences t l1 + occurrences t l2.
Proof. unfold occurrences. now rewrite filter_app, length_app. Qed.

Lemma own_assign (o : StatsScreen.object) (k k' : string) (v : nat) :
  StatsScreen.own (StatsScreen.assign o k v) k'
  = if String.eqb k k' then Some v else StatsScreen.own o k'.
Proof.
  induction o as [|[x n] o IH]; simpl.
  - reflexivity.
  - destruct (String.eqb_spec x k) as [->|Hxk]; simpl.
    + destruct (String.eqb k k'); reflexivity.
    + rewrite IH. destruct (String.eqb_spec x k') as [->|Hxk'];
        [|reflexivity].
      destruct (String.eqb_spec k k'); [congruence|reflexivity].
Qed.

Lemma own_In_key (o : StatsScreen.object) (k : string) :
  StatsScreen.own o k <> None <-> In k (map fst o).
Proof.
  induction o as [|[x n] o IH]; simpl; [tauto|].
  destruct (String.eqb_spec x k) as [->|Hne].
  - split; [now left|discriminate].
  - rewrite IH. split; [now right|]. intros [E|H]; [congruence|exact H].
Qed.

Lemma keys_assign (o : StatsScreen.object) (k : string) (v : nat) :
  map fst (StatsScreen.assign o k v)
  = match StatsScreen.own o k with
    | Some _ => map fst o
    | None => map fst o ++ [k]
    end.
Proof.
  induction o as [|[x n] o IH]; simpl; [reflexivity|].
  destruct (String.eqb_spec x k) as [->|Hne]; simpl; [reflexivity|].
  rewrite IH. now destruct (StatsScreen.own o k).
Qed.

Lemma own_In (o : StatsScreen.object) (k : string) (n : nat) :
  NoDup (map fst o) -> (In (k, n) o <-> StatsScreen.own o k = Some n).
Proof.
  induction o as [|[x m] o IH]; simpl; intros Hnd.
  - split; [contradiction|discriminate].
  - inversion Hnd as [|? ? Hx Ho]; subst.
    destruct (String.eqb_spec x k) as [->|Hne].
    + split.
      * intros [E|Hin]; [congruence|].
        exfalso. apply Hx. apply in_map_iff. now exists (k, n).
      * intros E. left. congruence.
    + rewrite <- (IH Ho). split; [|now right].
      intros [E|Hin]; [congruence|exact Hin].
Qed.

(** The counts held once the tags of [l] have been visited. *)
Definition counted (o : StatsScreen.object) (l : list string) : Prop :=
  NoDup (map fst o) /\
  forall t, StatsScreen.own o t
            = if Nat.eqb (occurrences t l) 0 then None
              else Some (occurrences t l).

Lemma occurrences_snoc (t x : string) (l : list string) :
  occurrences t (l ++ [x])
  = occurrences t l + (if String.eqb t x then 1 else 0).
Proof.
  rewrite occurrences_app. unfold occurrences at 2. simpl.
  now destruct (String.eqb t x).
Qed.

Lemma increment_counted (inherited : string -> bool)
  (o : StatsScreen.object) (l : list string) (x : string) :
  counted o l -> inherited x = false ->
  exists o', StatsScreen.increment inherited o x = Some o' /\
             counted o' (l ++ [x]).
Proof.
  intros [Hnd Hown] Hx. unfold StatsScreen.increment.
  pose proof (Hown x) as Hxo.
  assert (Hstep : forall v,
            (v = occurrences x l + 1) ->
            counted (StatsScreen.assign o x v) (l ++ [x])).
  { intros v Hv. split.
    - rewrite keys_assign. destruct (StatsScreen.own o x) eqn:E; [exact Hnd|].
      apply NoDup_app; [exact Hnd|repeat constructor; auto|].
      intros y Hy [<-|[]]. apply own_In_key in Hy. congruence.
    - intros t. rewrite own_assign, occurrences_snoc.
      rewrite (String.eqb_sym t x).
      destruct (String.eqb_spec x t) as [->|Hne].
      + subst v. destruct (occurrences t l + 1) eqn:E; [lia|reflexivity].
      + rewrite Nat.add_0_r. apply Hown. }
  destruct (StatsScreen.own o x) as [n|] eqn:E.
  - eexists. split; [reflexivity|]. apply Hstep.
    destruct (Nat.eqb (occurrences x l) 0); congruence.
  - rewrite Hx. eexists. split; [reflexivity|]. apply Hstep.
    destruct (Nat.eqb_spec (occurrences x l) 0); [lia|discriminate].
Qed.

Lemma forEach_tag_counted (inherited : string -> bool) (ts : list string) :
  forall o l,
    counted o l -> Forall (fun t => inherited t = false) ts ->
    exists o', StatsScreen.forEach_tag inherited ts o = Some o' /\
               counted o' (l ++ ts).
Proof.
  induction ts as [|x ts IH]; intros o l Ho Hts; simpl.
  - exists o. split; [reflexivity|]. now rewrite app_nil_r.
  - inversion Hts as [|? ? Hx Hrest]; subst.
    destruct (@increment_counted inherited o l x Ho Hx) as (o1 & -> & Ho1).
    destruct (IH o1 (l ++ [x]) Ho1 Hrest) as (o2 & -> & Ho2).
    exists o2. split; [reflexivity|]. now rewrite <- app_assoc in Ho2.
Qed.

Lemma forEach_activity_counted (inherited : string -> bool)
  (acts : list Activity) :
  forall o l,
    counted o l ->
    Forall (fun a => Forall (fun t => inherited t = false) (tags a)) acts ->
    exists o', StatsScreen.forEach_activity inherited acts o = Some o' /\
               counted o' (l ++ flat_map tags acts).
Proof.
  induction acts as [|a acts IH]; intros o l Ho Hacts; simpl.
  - exists o. split; [reflexivity|]. now rewrite app_nil_r.
  - inversion Hacts as [|? ? Ha Hrest]; subst.
    destruct (@forEach_tag_counted inherited (tags a) o l Ho Ha)
      as (o1 & -> & Ho1).
    destruct (IH o1 (l ++ tags a) Ho1 Hrest) as (o2 & -> & Ho2).
    exists o2. split; [reflexivity|]. now rewrite <- app_assoc in Ho2.
Qed.

Lemma filter_partition_perm (A : Type) (p : A -> bool) (l : list A) :
  Permutation (filter p l ++ filter (fun x => negb (p x)) l) l.
Proof.
  induction l as [|x l IH]; simpl; [constructor|].
  destruct (p x); simpl.
  - now constructor.
  - rewrite <- Permutation_middle. now constructor.
Qed.

Lemma tagStatsArray_perm (o : StatsScreen.object) :
  Permutation (StatsScreen.tagStatsArray o) (map StatsScreen.to_stat o).
Proof.
  unfold StatsScreen.tagStatsArray, StatsScreen.Object_entries.
  rewrite <- sort_by_perm. apply Permutation_map.
  rewrite <- (sort_by_perm StatsScreen.index_le).
  apply filter_partition_perm.
Qed.

Lemma by_count_desc_total (x y : StatsScreen.TagStats) :
  StatsScreen.by_count_desc x y = true \/ StatsScreen.by_count_desc y x = true.
Proof.
  unfold StatsScreen.by_count_desc. rewrite !Nat.leb_le. lia.
Qed.

Lemma by_count_desc_trans (x y z : StatsScreen.TagStats) :
  StatsScreen.by_count_desc x y = true ->
  StatsScreen.by_count_desc y z = true ->
  StatsScreen.by_count_desc x z = true.
Proof.
  unfold StatsScreen.by_count_desc. rewrite !Nat.leb_le. lia.
Qed.

(** X19: the tag statistics of the stats screen, when no tag names a
    property that object literals inherit: every tag of the listed
    activities appears exactly once, with the number of times it occurs
    on those activities as its count, no other tag appears, and the
    counts never increase along the result. *)
Theorem tag_stats_count_occurrences (inherited : string -> bool)
  (activitiesData : list Activity) :
  Forall (fun a => Forall (fun t => inherited t = false) (tags a))
    activitiesData ->
  exists stats,
    StatsScreen.loadStats_tagStats inherited activitiesData = Some stats /\
    NoDup (map StatsScreen.tag stats) /\
    (forall t n,
       In {| StatsScreen.tag := t; StatsScreen.count := n |} stats <->
       0 < n /\ n = occurrences t (flat_map tags activitiesData)) /\
    StronglySorted
      (fun a b => StatsScreen.count b <= StatsScreen.count a) stats.
Proof.
  intros Hacts. unfold StatsScreen.loadStats_tagStats.
  assert (H0 : counted [] []).
  { split; [constructor|]. intros t. reflexivity. }
  destruct (@forEach_activity_counted inherited activitiesData [] [] H0 Hacts)
    as (o & -> & [Hnd Hown]).
  simpl in Hown.
  eexists. split; [reflexivity|]. split; [|split].
  - eapply Permutation_NoDup.
    + apply Permutation_map. apply Permutation_sym. apply tagStatsArray_perm.
    + rewrite map_map. simpl. exact Hnd.
  - intros t n.
    assert (Hin : In {| StatsScreen.tag := t; StatsScreen.count := n |}
                    (StatsScreen.tagStatsArray o) <-> In (t, n) o).
    { split.
      - intros H. apply (Permutation_in _ (tagStatsArray_perm o)) in H.
        apply in_map_iff in H. destruct H as ([k m] & E & Hk).
        unfold StatsScreen.to_stat in E. simpl in E. now inversion E; subst.
      - intros H. apply (Permutation_in _ (Permutation_sym (tagStatsArray_perm o))).
        apply in_map_iff. now exists (t, n). }
    rewrite Hin, (@own_In o t n Hnd), Hown.
    destruct (Nat.eqb_spec (occurrences t (flat_map tags activitiesData)) 0)
      as [E|E].
    + split; [discriminate|]. intros [Hpos ->]. lia.
    + split.
      * intros H. inversion H. split; [lia|reflexivity].
      * intros [_ ->]. reflexivity.
  - unfold StatsScreen.tagStatsArray.
    pose proof (sort_by_sorted StatsScreen.by_count_desc
                  by_count_desc_total by_count_desc_trans
                  (map StatsScreen.to_stat (StatsScreen.Object_entries o)))
      as Hsorted.
    induction Hsorted as [|x l Hl IH Hx]; constructor; [exact IH|].
    eapply Forall_impl; [|exact Hx].
    intros y H. unfold StatsScreen.by_count_desc in H. now apply Nat.leb_le.
Qed.

Lemma tag_stats_count_occurrences_witness :
  exists stats,
    StatsScreen.loadStats_tagStats (fun t => String.eqb t "constructor")
      (map decode three_days) = Some stats /\
    NoDup (map StatsScreen.tag stats).
Proof.
  destruct (@tag_stats_count_occurrences (fun t => String.eqb t "constructor")
              (map decode three_days))
    as (stats & Hrun & Hnd & _).
  - repeat constructor.
  - now exists stats.
Defined.

(** ** Further compositions *)

(** X20: an [initialize] that starts from a store that is not READY and
    meets no failure leaves the table and both indexes in place, with
    the rows the table had (none when it was just created). *)
Theorem initialize_completes_schema (env : InitEnv) (w : World) :
  ~ READY w -> first_failure env = None ->
  exists w',
    initialize env w = Returned tt w' /\ READY w' /\
    idx_activities_committed_on (file w') = true /\
    idx_activities_handle (file w') = true /\
    activities (file w')
    = Some (match activities (file w) with
            | Some rows => rows
            | None => []
            end).
Proof.
  destruct w as [[d init] [acts i1 i2]]. intros Hnot.
  assert (Hgo : match init, d with true, Some _ => False | _, _ => True end).
  { destruct init; [|exact I]. destruct d; [|exact I].
    apply Hnot. split; [reflexivity|discriminate]. }
  unfold first_failure, initialize. unfold_store. simpl.
  destruct (open_answer env) as [[h|]|msg]; try discriminate.
  destruct (exec_fault env 0) as [m0|]; try discriminate.
  destruct (exec_fault env 1) as [m1|]; try discriminate.
  destruct (exec_fault env 2) as [m2|]; try discriminate.
  intros _.
  destruct init; destruct d; destruct acts; simpl in *; try contradiction;
    eexists; (split; [reflexivity|]); unfold READY; simpl;
    repeat split; try reflexivity; discriminate.
Qed.

Lemma initialize_completes_schema_witness :
  exists w',
    initialize quiet unplugged = Returned tt w' /\
    activities (file w') = Some three_days.
Proof.
  destruct (@initialize_completes_schema quiet unplugged)
    as (w' & Hrun & _ & _ & _ & Hrows).
  - unfold READY. simpl. intros [H _]. discriminate H.
  - reflexivity.
  - exists w'. split; [exact Hrun|exact Hrows].
Defined.

(** X21: confirming a deletion on the detail screen, on a READY store:
    for a stored id the Success alert that leads back is raised and the
    id then reads back as null; for an id no row has, the Error alert is
    raised and the world is unchanged.  The screen state is untouched
    either way. *)
Theorem detail_screen_delete (i : string) (s : ActivityDetailScreen.state)
  (w : World) (rows : list Row) :
  READY w -> stored w rows ->
  (find (has_id i) rows <> None ->
   exists w',
     ActivityDetailScreen.confirmDelete i s w
     = (s, w', [Alert_then_back "Success" "Activity deleted successfully"]) /\
     getActivityById i w' = Returned None w') /\
  (find (has_id i) rows = None ->
   ActivityDetailScreen.confirmDelete i s w
   = (s, w, [Alert "Error" "Failed to delete activity"])).
Proof.
  intros Hr Hs. unfold ActivityDetailScreen.confirmDelete.
  rewrite (deleteActivity_run i Hr Hs).
  set (rows' := filter (fun r => negb (has_id i r)) rows).
  split.
  - intros Hsome.
    assert (Hpos : Nat.ltb 0 (length (filter (has_id i) rows)) = true).
    { destruct (find (has_id i) rows) as [row|] eqn:Hfind; [|congruence].
      apply find_some in Hfind.
      assert (Hin : In row (filter (has_id i) rows)) by now apply filter_In.
      destruct (filter (has_id i) rows); [contradiction|reflexivity]. }
    rewrite Hpos. eexists. split; [reflexivity|].
    assert (Hs' : stored (with_rows w rows') rows').
    { apply with_rows_stored. destruct Hs as [_ Hp].
      rewrite Forall_forall in *. intros x Hx. apply filter_In in Hx.
      now apply Hp. }
    rewrite (getActivityById_run i (with_rows_READY _ Hr) Hs').
    unfold rows'. rewrite find_filter_not_id, String.eqb_refl. reflexivity.
  - intros Hnone. apply find_none_existsb in Hnone.
    destruct (filter_none_id _ _ Hnone) as [H1 H2].
    unfold rows'. rewrite H1, H2. simpl.
    destruct (ready_shape Hr (proj1 Hs)) as (h & i1 & i2 & ->). reflexivity.
Qed.

Lemma detail_screen_delete_witness :
  exists w',
    ActivityDetailScreen.confirmDelete "3c" editing_walk (ready_world three_days)
    = (editing_walk, w',
       [Alert_then_back "Success" "Activity deleted successfully"]) /\
    getActivityById "3c" w' = Returned None w'.
Proof.
  apply (proj1 (@detail_screen_delete "3c" editing_walk
                  (ready_world three_days) three_days
                  (ready_world_READY three_days) three_days_stored)).
  discriminate.
Defined.

Definition committed_exactly (d : string) (a : Activity) : bool :=
  String.eqb (committed_on a) d.

(** X22: a date range whose two bounds are the same day returns exactly
    the activities of [list()] committed on that day, in the order of
    [list()]. *)
Theorem date_range_single_day (w : World) (rows : list Row) (d : string) :
  READY w -> stored w rows ->
  exists all,
    getActivities w = Returned all w /\
    getActivitiesByDateRange d d w
    = Returned (filter (committed_exactly d) all) w.
Proof.
  intros Hr Hs. eexists. split; [apply (getActivities_run Hr Hs)|].
  rewrite (getActivitiesByDateRange_run d d Hr Hs). f_equal.
  apply filter_ext. intros a. unfold committed_within, committed_exactly.
  destruct (String.eqb_spec (committed_on a) d) as [->|Hne].
  - now rewrite Text.leb_refl.
  - destruct (String.leb d (committed_on a)) eqn:H1; [|reflexivity].
    destruct (String.leb (committed_on a) d) eqn:H2; [|reflexivity].
    exfalso. apply Hne. now apply String.leb_antisym.
Qed.

Lemma date_range_single_day_witness :
  exists all,
    getActivities (ready_world three_days) = Returned all (ready_world three_days) /\
    getActivitiesByDateRange "2024-01-03" "2024-01-03" (ready_world three_days)
    = Returned (filter (committed_exactly "2024-01-03") all)
        (ready_world three_days).
Proof.
  apply (@date_range_single_day (ready_world three_days) three_days
           "2024-01-03" (ready_world_READY three_days) three_days_stored).
Defined.

Lemma filter_app_fresh (i : string) (rows : list Row) (row : Row) :
  existsb (has_id i) rows = false -> row_id row = i ->
  filter (fun r => negb (has_id i r)) (rows ++ [row]) = rows /\
  filter (has_id i) (rows ++ [row]) = [row].
Proof.
  intros Hfresh Hid. rewrite !filter_app.
  destruct (filter_none_id _ _ Hfresh) as [H1 H2]. rewrite H1, H2. simpl.
  unfold has_id. rewrite Hid, String.eqb_refl. simpl.
  now rewrite app_nil_r.
Qed.

(** X23: deleting an activity right after it was added undoes the
    addition: [delete] with the returned id returns true and the world is
    the one before the [add]. *)
Theorem add_then_delete_restores (w : World) (rows : list Row) (r : Readings)
  (activity : NewActivity) (a : Activity) (w' : World) :
  READY w -> stored w rows ->
  addActivity r activity w = Returned a w' ->
  deleteActivity (id a) w' = Returned true w.
Proof.
  intros Hr Hs Hadd. rewrite (addActivity_run r activity Hr Hs) in Hadd.
  destruct (existsb (has_id (fresh_id r)) rows) eqn:Hfresh; [discriminate|].
  inversion Hadd; subst a w'; clear Hadd.
  assert (Hs' : stored (with_rows w (rows ++ [inserted_row r activity]))
                  (rows ++ [inserted_row r activity])).
  { apply with_rows_stored. apply Forall_app. split; [apply Hs|].
    constructor; [apply stringify_parseable|constructor]. }
  rewrite (deleteActivity_run _ (with_rows_READY _ Hr) Hs'). simpl id.
  destruct (@filter_app_fresh (fresh_id r) rows (inserted_row r activity)
              Hfresh eq_refl) as [H1 H2].
  rewrite H1, H2. simpl.
  destruct (ready_shape Hr (proj1 Hs)) as (h & i1 & i2 & ->). reflexivity.
Qed.

Lemma add_then_delete_restores_witness :
  deleteActivity (fresh_id noon)
    (with_rows (ready_world three_days)
       (three_days ++ [inserted_row noon activity_h]))
  = Returned true (ready_world three_days).
Proof.
  apply (@add_then_delete_restores (ready_world three_days) three_days noon
           activity_h (decode (inserted_row noon activity_h))
           (with_rows (ready_world three_days)
              (three_days ++ [inserted_row noon activity_h]))
           (ready_world_READY three_days) three_days_stored eq_refl).
Defined.

Example array_index_samples :
  map StatsScreen.array_index ["0"; "10"; "01"; "4294967294"; "4294967295"; "x1"; ""]
  = [Some 0%N; Some 10%N; None; Some 4294967294%N; None; None; None].
Proof. reflexivity. Qed.

Example entries_put_indices_first :
  StatsScreen.Object_entries [("b", 1); ("10", 2); ("a", 3); ("9", 4)]
  = [("9", 4); ("10", 2); ("b", 1); ("a", 3)].
Proof. reflexivity. Qed.

Example trim_samples :
  map JS.trim ["  a b  "; "   "; ""; "x"] = ["a b"; ""; ""; "x"].
Proof. reflexivity. Qed.
